(** * sample-controller: a shallow embedding of the controller, the wire
    client and the debouncer, and the properties of their specification.

    The Go packages are embedded one module each:
    - [metav1], [appsv1], [apiextensionsv1]: the fields of the Kubernetes
      API types that the program reads or writes;
    - [kubeapi]: the REST verbs and the watch producer (pkg/kubeapi);
    - [ratelimit]: the debouncer goroutine as a labelled transition system
      (pkg/ratelimit);
    - [controller]: the reconciliation loop (pkg/controller).

    Channels are modelled by what travels on them: a producer is a function
    to the list of events it sends before closing its channel, the select
    loop of the controller is a step function on the value that the select
    statement receives, and an unbuffered rendezvous with the debouncer
    goroutine is a transition that needs the goroutine to be at its select. *)

From stdpp Require Import gmap strings list fin_maps pretty.

(* set_solver clears hypotheses by name, some of which it has already
   cleared; the warning about it says nothing of the proofs. *)
#[local] Set Warnings "-clear-no-such-hyp".

Open Scope Z_scope.

(** ** Go's [error] values *)

(** The errors the program builds or inspects.  [RequestError] is
    kubeapi's own error type (the only one the program tests for with a type
    assertion); [errorString] stands for an error made by a library
    (transport, encoding/json) or by [fmt.Errorf] without [%w]; [wrapError]
    is what [fmt.Errorf] returns for a format with [%w]: it stores the whole
    formatted message and the wrapped error. *)
Inductive error : Type :=
| RequestError (StatusCode : Z) (Body : string)
| errorString (msg : string)
| wrapError (msg : string) (err : error).

Definition quote : string := String (Ascii.ascii_of_nat 34) EmptyString.

(** [func (r *RequestError) Error() string] and the [Error] methods of the
    other two. *)
Definition Error (e : error) : string :=
  match e with
  | RequestError code body =>
      "http request failed: code=" +:+ pretty code +:+ " body=" +:+ quote
        +:+ body +:+ quote
  | errorString msg => msg
  | wrapError msg _ => msg
  end.

(** [fmt.Errorf(prefix + "%w", err)]. *)
Definition Errorf_w (prefix : string) (err : error) : error :=
  wrapError (prefix +:+ Error err) err.

(** [fmt.Errorf(prefix + "%s", s)]. *)
Definition Errorf_s (prefix : string) (s : string) : error :=
  errorString (prefix +:+ s).

(** The type assertion of [err] to a pointer to [kubeapi.RequestError]: the
    status code when the dynamic type of [err] is that one. *)
Definition asRequestError (err : option error) : option Z :=
  match err with
  | Some (RequestError code _) => Some code
  | _ => None
  end.

(** ** The Kubernetes API types, as far as the program uses them *)

Module metav1.

Module OwnerReference.
Record t : Type := mk {
  APIVersion : string;
  Kind : string;
  Name : string;
  UID : string;
  Controller : option bool;          (* *bool *)
  BlockOwnerDeletion : option bool   (* *bool *)
}.
End OwnerReference.

Module ObjectMeta.
Record t : Type := mk {
  Name : string;
  Namespace : string;
  UID : string;
  ResourceVersion : string;
  OwnerReferences : list OwnerReference.t
}.
End ObjectMeta.

(** [GetControllerOfNoCopy]: the first owner reference whose [Controller]
    pointer is set and true. *)
Fixpoint GetControllerOfNoCopy (refs : list OwnerReference.t)
  : option OwnerReference.t :=
  match refs with
  | [] => None
  | r :: refs' =>
      match OwnerReference.Controller r with
      | Some true => Some r
      | _ => GetControllerOfNoCopy refs'
      end
  end.

(** [IsControlledBy(obj, owner)] of k8s.io/apimachinery (v0.19.2 in go.mod):
    the controller reference of [obj] exists and carries the owner's UID. *)
Definition IsControlledBy (obj owner : ObjectMeta.t) : bool :=
  match GetControllerOfNoCopy (ObjectMeta.OwnerReferences obj) with
  | None => false
  | Some ref => bool_decide (OwnerReference.UID ref = ObjectMeta.UID owner)
  end.

(** [NewControllerRef(owner, gvk)]. *)
Definition NewControllerRef (owner : ObjectMeta.t) (group version kind : string)
  : OwnerReference.t :=
  {| OwnerReference.APIVersion := group +:+ "/" +:+ version;
     OwnerReference.Kind := kind;
     OwnerReference.Name := ObjectMeta.Name owner;
     OwnerReference.UID := ObjectMeta.UID owner;
     OwnerReference.Controller := Some true;
     OwnerReference.BlockOwnerDeletion := Some true |}.

(** [metav1.WatchEvent]: one envelope of the watch wire format. *)
Record WatchEvent : Type := {
  Type_ : string;      (* Type *)
  Raw : string         (* Object.Raw *)
}.

End metav1.

Module appsv1.

Record DeploymentSpec : Type := {
  Replicas : option Z                (* *int32 *)
}.

(** The pod template and the selector of a deployment are constants of
    [newDeployment] that nothing in the program reads back; they are left
    out of the record. *)
Record Deployment : Type := {
  ObjectMeta : metav1.ObjectMeta.t;
  Spec : DeploymentSpec
}.

End appsv1.

Module apiextensionsv1.

Record CustomResourceDefinitionCondition : Type := {
  Type_ : string;
  Status : string
}.

Record CustomResourceDefinition : Type := {
  Name : string;
  Conditions : list CustomResourceDefinitionCondition   (* Status.Conditions *)
}.

Definition ConditionTrue : string := "True".

End apiextensionsv1.

(** ** pkg/kubeapi: the wire client *)

Module kubeapi.

(** What the transport answers to one request: an error of its own, or a
    response with a status code and a body. *)
Inductive RoundTrip : Type :=
| TransportError (err : error)
| Response (StatusCode : Z) (Body : string).

(** [KubeClient.do], after the request was sent: a response outside 2xx
    becomes a [RequestError] with the body read whole. *)
Definition do (rt : RoundTrip) : string + error :=
  match rt with
  | TransportError err => inr err
  | Response code body =>
      if negb ((200 <=? code) && (code <? 300))
      then inr (RequestError code body)
      else inl body
  end.

(** [KubeClient.Get]. *)
Definition Get (rt : RoundTrip) : string + error := do rt.

(** [KubeClient.putOrPost]: [marshalErr] is the result of [json.Marshal] on
    the object and [closeErr] the result of closing the response body. *)
Definition putOrPost (marshalErr : option error) (rt : RoundTrip)
    (closeErr : option error) : option error :=
  match marshalErr with
  | Some err => Some err
  | None =>
      match do rt with
      | inr err => Some err
      | inl _ => closeErr
      end
  end.

(** [KubeClient.Delete]: the response body is closed and the result of
    closing it is dropped. *)
Definition Delete (rt : RoundTrip) : option error :=
  match do rt with
  | inr err => Some err
  | inl _ => None
  end.

(** [parseEventType]: true if the event is DELETED. *)
Definition parseEventType (ty : string) : bool * option error :=
  if bool_decide (ty = "ADDED") || bool_decide (ty = "MODIFIED")
  then (false, None)
  else if bool_decide (ty = "DELETED")
  then (true, None)
  else (false, Some (Errorf_s "Invalid EventType: " ty)).

(** [kubeapi.WatchEvent]; [Item] is an [interface{}] holding a [T] or nil. *)
Record WatchEvent (T : Type) : Type := mkWatchEvent {
  IsDelete : bool;
  Item : option T;
  Err : option error
}.
Arguments mkWatchEvent {T} _ _ _.
Arguments IsDelete {T} _.
Arguments Item {T} _.
Arguments Err {T} _.

Definition errEvent {T} (err : error) : WatchEvent T :=
  mkWatchEvent false None (Some err).

Definition itemEvent {T} (isDelete : bool) (item : T) : WatchEvent T :=
  mkWatchEvent isDelete (Some item) None.

(** The result of one [decoder.Decode(&we)] on the response body: an
    envelope, or the decoder's error.  Running off the end of the body is
    the error [io.EOF]. *)
Inductive frame : Type :=
| Envelope (we : metav1.WatchEvent)
| Malformed (err : error).

Definition EOF : error := errorString "EOF".

(** One REST call as the environment answers it: the result of
    [json.Marshal] on the object, the transport's answer, and the result of
    closing the response body. *)
Record Answer : Type := {
  marshalErr : option error;
  roundTrip : RoundTrip;
  closeErr : option error
}.

(** The path that [do] builds below the client's url [/apis/]. *)
Definition urlPath (group version namespace path : string) : string :=
  "/apis/" +:+ group +:+ "/" +:+ version +:+ "/" +:+
  (if bool_decide (namespace = EmptyString) then EmptyString
   else "namespaces/" +:+ namespace +:+ "/") +:+ path.

(** A request that carries an object of type [B]. *)
Record Request (B : Type) : Type := mkRequest {
  Method : string;
  Path : string;
  Body : B
}.
Arguments mkRequest {B} _ _ _.
Arguments Method {B} _.
Arguments Path {B} _.
Arguments Body {B} _.

(** [Post] and [Put]: the request sent and, given the answer, the error
    returned. *)
Definition Post {B} (group version namespace path : string) (obj : B)
  : Request B := mkRequest "POST" (urlPath group version namespace path) obj.

Definition Put {B} (group version namespace path : string) (obj : B)
  : Request B := mkRequest "PUT" (urlPath group version namespace path) obj.

Definition result (a : Answer) : option error :=
  putOrPost (marshalErr a) (roundTrip a) (closeErr a).

(** [AddDeployment] and [UpdateDeployment]. *)
Definition AddDeployment (deployment : appsv1.Deployment)
  : Request appsv1.Deployment :=
  Post "apps" "v1"
    (metav1.ObjectMeta.Namespace (appsv1.ObjectMeta deployment))
    "deployments" deployment.

Definition UpdateDeployment (deployment : appsv1.Deployment)
  : Request appsv1.Deployment :=
  Put "apps" "v1"
    (metav1.ObjectMeta.Namespace (appsv1.ObjectMeta deployment))
    ("deployments/" +:+ metav1.ObjectMeta.Name (appsv1.ObjectMeta deployment))
    deployment.

Section produce.

Context {T : Type}.

(** [json.NewDecoder(bodyReader)]: the results of the successive
    [decoder.Decode(&we)] calls on a body. *)
Variable jsonDecoder : string -> list frame.

(** [json.Unmarshal(raw, obj)] into a fresh [T]. *)
Variable jsonUnmarshal : string -> T + error.

(** The stop channel as the producer sees it: [stopCh n] tells whether the
    channel is closed when [send] is called for the [n]-th time. *)
Variable stopCh : nat -> bool.

(** The closure [send]: nothing is sent once the stop channel is closed. *)
Definition send (n : nat) (ev : WatchEvent T) : list (WatchEvent T) :=
  if stopCh n then [] else [ev].

Definition decodeError (path : string) (err : error) : error :=
  Errorf_w ("Could not decode WatchEvent(" +:+ path +:+ "): ") err.

(** The decode loop of [produceResources]: [n] counts the calls of [send]
    so far, the result is what is sent on [out] before it is closed. *)
Fixpoint decodeLoop (path : string) (body : list frame) (n : nat)
  : list (WatchEvent T) :=
  match body with
  | [] => send n (errEvent (decodeError path EOF))
  | Malformed err :: _ => send n (errEvent (decodeError path err))
  | Envelope we :: body' =>
      match parseEventType (metav1.Type_ we) with
      | (_, Some err) => send n (errEvent err)
      | (isDelete, None) =>
          match jsonUnmarshal (metav1.Raw we) with
          | inr err =>
              send n (errEvent (Errorf_w "Unmarshaling of resource failed: " err))
          | inl obj =>
              send n (itemEvent isDelete obj) ++ decodeLoop path body' (S n)
          end
      end
  end.

(** [produceResources]: everything sent on [out] before it is closed, given
    the transport's answer to the watch GET. *)
Definition produceResources (path : string) (rt : RoundTrip)
  : list (WatchEvent T) :=
  match Get rt with
  | inr err => [errEvent (Errorf_w "Watch failed: " err)]
  | inl bodyReader => decodeLoop path (jsonDecoder bodyReader) 0
  end.

(** The earlier revision of the file.  An invalid event type sends an error
    event and goes on to unmarshal and send the object, and the result of
    [unmarshal] is sent whether it is an error or not; the loop ends only
    when [Decode] fails.  The plain sends [out <- ev] do not look at the stop
    channel; the send of the decode error does. *)
Definition unmarshal_v0 (isDelete : bool) (data : string) : WatchEvent T :=
  match jsonUnmarshal data with
  | inr err => errEvent (Errorf_w "Unmarshaling of resource failed: " err)
  | inl obj => itemEvent isDelete obj
  end.

Fixpoint decodeLoop_v0 (path : string) (body : list frame) (n : nat)
  : list (WatchEvent T) :=
  match body with
  | [] => send n (errEvent (decodeError path EOF))
  | Malformed err :: _ => send n (errEvent (decodeError path err))
  | Envelope we :: body' =>
      let '(et, perr) := parseEventType (metav1.Type_ we) in
      match perr with Some err => [errEvent err] | None => [] end
      ++ unmarshal_v0 et (metav1.Raw we) :: decodeLoop_v0 path body' n
  end.

Definition produceResources_v0 (path : string) (rt : RoundTrip)
  : list (WatchEvent T) :=
  match Get rt with
  | inr err => [errEvent (Errorf_w "Watch failed: " err)]
  | inl bodyReader => decodeLoop_v0 path (jsonDecoder bodyReader) 0
  end.

End produce.

End kubeapi.

(** ** pkg/ratelimit: the debouncer *)

Module ratelimit.

(** The goroutine started by [AfterOneSecondIdle].  It is either blocked in
    its select, with the timer armed or not, a value waiting in [timer.C] or
    not, and the local [tick] set to [ret.tick] or nil; or it has returned. *)
Inductive goroutine : Type :=
| Select (armed : bool) (C : bool) (tick : bool)
| Returned.

(** The transitions: the four cases of the select, each a rendezvous with
    the goroutine on the other end of the channel, and the expiry of the
    timer in the runtime. *)
Inductive label : Type :=
| RecvStop      (* case <-ret.stop: a call of Stop() returns *)
| RecvAsk       (* case <-ret.ask: a call of AskTick() returns *)
| RecvTimer     (* case <-timer.C *)
| SendTick      (* case tick <- struct{}{}: a receive on GetChan() returns *)
| TimerFires.   (* one second has passed since the timer was armed *)

(** After [NewTimer] and [timer.Stop()]. *)
Definition AfterOneSecondIdle : goroutine := Select false false false.

(** [step g l] is the state after transition [l], or [None] when [l] cannot
    happen in [g]. *)
Definition step (g : goroutine) (l : label) : option goroutine :=
  match g, l with
  | Select _ _ _, RecvStop => Some Returned
  | Select _ _ tick, RecvAsk => Some (Select true false tick)
  | Select armed true _, RecvTimer => Some (Select armed false true)
  | Select armed C true, SendTick => Some (Select armed C false)
  | Select true _ tick, TimerFires => Some (Select false true tick)
  | _, _ => None
  end.

Fixpoint run (g : goroutine) (ls : list label) : option goroutine :=
  match ls with
  | [] => Some g
  | l :: ls' =>
      match step g l with
      | Some g' => run g' ls'
      | None => None
      end
  end.

(** A pending call of [AskTick()] returns if the system can reach, by some
    transitions, the one that receives from [ret.ask]. *)
Definition AskTick_returns (g : goroutine) : Prop :=
  exists ls g', run g (ls ++ [RecvAsk]) = Some g'.

End ratelimit.

(** The earlier revision of the debouncer.  Its select has three cases, and
    the case of the timer sends the tick itself: the goroutine is then blocked
    in [ret.tick <- struct{}{}] until the tick is read, outside its select. *)
Module ratelimit0.

Inductive goroutine : Type :=
| Select (armed : bool) (C : bool)
| Sending (armed : bool) (C : bool)
| Returned.

Definition AfterOneSecondIdle : goroutine := Select false false.

Definition step (g : goroutine) (l : ratelimit.label) : option goroutine :=
  match g, l with
  | Select _ _, ratelimit.RecvStop => Some Returned
  | Select _ _, ratelimit.RecvAsk => Some (Select true false)
  | Select armed true, ratelimit.RecvTimer => Some (Sending armed false)
  | Sending armed C, ratelimit.SendTick => Some (Select armed C)
  | Select true _, ratelimit.TimerFires => Some (Select false true)
  | Sending true _, ratelimit.TimerFires => Some (Sending false true)
  | _, _ => None
  end.

Fixpoint run (g : goroutine) (ls : list ratelimit.label) : option goroutine :=
  match ls with
  | [] => Some g
  | l :: ls' =>
      match step g l with
      | Some g' => run g' ls'
      | None => None
      end
  end.

End ratelimit0.

(** ** pkg/controller: the reconciliation loop *)

Module controller.

Import kubeapi.

Definition Version : string := "v1alpha1".
Definition Group : string := "samplecontroller.example.com".
Definition Kind : string := "Foo".

(** A computation that may panic (a failed type assertion, a nil pointer
    dereference, the close of a closed channel). *)
Inductive outcome (A : Type) : Type :=
| Done (a : A)
| Panic.
Arguments Done {A} _.
Arguments Panic {A}.

Record FooSpec : Type := {
  DeploymentName : string;
  Replicas : Z                       (* int32 *)
}.

Record Foo : Type := {
  ObjectMeta : metav1.ObjectMeta.t;
  Spec : FooSpec
}.

Definition fooName (foo : Foo) : string := metav1.ObjectMeta.Name (ObjectMeta foo).
Definition depName (dep : appsv1.Deployment) : string :=
  metav1.ObjectMeta.Name (appsv1.ObjectMeta dep).

(** *** addCRD *)

(** The inner loop of [addCRD] over [item.Status.Conditions]. *)
Definition established (item : apiextensionsv1.CustomResourceDefinition) : bool :=
  existsb
    (fun cond =>
       bool_decide (apiextensionsv1.Type_ cond = "Established") &&
       bool_decide (apiextensionsv1.Status cond = apiextensionsv1.ConditionTrue))
    (apiextensionsv1.Conditions item).

(** The loop [for res := range resources] of [addCRD]; the end of the list
    is the close of the channel. *)
Fixpoint waitEstablished
    (resources : list (WatchEvent apiextensionsv1.CustomResourceDefinition))
  : outcome (option error) :=
  match resources with
  | [] => Done None
  | res :: resources' =>
      match Err res with
      | Some err => Done (Some err)
      | None =>
          if IsDelete res then waitEstablished resources'
          else
            match Item res with
            | None => Panic
            | Some item =>
                if established item then Done None
                else waitEstablished resources'
            end
      end
  end.

(** [addCRD]: [err] is what [AddCustomResourceDefinition] returned and
    [resources] what the watch of [GetCustomResourceDefinitions] sends. *)
Definition addCRD (err : option error)
    (resources : list (WatchEvent apiextensionsv1.CustomResourceDefinition))
  : outcome (option error) :=
  match asRequestError err with
  | Some code =>
      if negb (code =? 409) then Done err else waitEstablished resources
  | None => waitEstablished resources
  end.

(** *** The state of the controller *)

Record controllerStatus : Type := {
  foos : gmap string Foo;
  deployments : gmap string appsv1.Deployment;
  todo : gset string
}.

(** What the controller does to the outside: the create and update calls
    issued, the lines logged, the calls of [c.rl.AskTick()], and the
    [c.Errors] channel (the values sent on it, and whether it is closed). *)
Record World : Type := {
  requests : list (Request appsv1.Deployment);
  logged : list string;
  asked : nat;
  Errors : list error;
  ErrorsClosed : bool
}.

Definition issue (req : Request appsv1.Deployment) (w : World) : World :=
  {| requests := requests w ++ [req]; logged := logged w; asked := asked w;
     Errors := Errors w; ErrorsClosed := ErrorsClosed w |}.

Definition Printf (line : string) (w : World) : World :=
  {| requests := requests w; logged := logged w ++ [line]; asked := asked w;
     Errors := Errors w; ErrorsClosed := ErrorsClosed w |}.

Definition AskTick (w : World) : World :=
  {| requests := requests w; logged := logged w; asked := S (asked w);
     Errors := Errors w; ErrorsClosed := ErrorsClosed w |}.

Definition sendError (err : error) (w : World) : World :=
  {| requests := requests w; logged := logged w; asked := asked w;
     Errors := Errors w ++ [err]; ErrorsClosed := ErrorsClosed w |}.

Definition closeErrors (w : World) : World :=
  {| requests := requests w; logged := logged w; asked := asked w;
     Errors := Errors w; ErrorsClosed := true |}.

Definition newWorld : World :=
  {| requests := []; logged := []; asked := 0%nat; Errors := [];
     ErrorsClosed := false |}.

Definition setTodo (t : gset string) (s : controllerStatus) : controllerStatus :=
  {| foos := foos s; deployments := deployments s; todo := t |}.

Definition setFoos (f : gmap string Foo) (s : controllerStatus) : controllerStatus :=
  {| foos := f; deployments := deployments s; todo := todo s |}.

Definition setDeployments (d : gmap string appsv1.Deployment)
    (s : controllerStatus) : controllerStatus :=
  {| foos := foos s; deployments := d; todo := todo s |}.

(** [newDeployment]. *)
Definition newDeployment (foo : Foo) : appsv1.Deployment :=
  {| appsv1.ObjectMeta :=
       {| metav1.ObjectMeta.Name := DeploymentName (Spec foo);
          metav1.ObjectMeta.Namespace := metav1.ObjectMeta.Namespace (ObjectMeta foo);
          metav1.ObjectMeta.UID := EmptyString;
          metav1.ObjectMeta.ResourceVersion := EmptyString;
          metav1.ObjectMeta.OwnerReferences :=
            [metav1.NewControllerRef (ObjectMeta foo) Group Version Kind] |};
     appsv1.Spec := {| appsv1.Replicas := Some (Replicas (Spec foo)) |} |}.

(** [newDep.ResourceVersion = dep.ResourceVersion]. *)
Definition withResourceVersion (rv : string) (d : appsv1.Deployment)
  : appsv1.Deployment :=
  let m := appsv1.ObjectMeta d in
  {| appsv1.ObjectMeta :=
       {| metav1.ObjectMeta.Name := metav1.ObjectMeta.Name m;
          metav1.ObjectMeta.Namespace := metav1.ObjectMeta.Namespace m;
          metav1.ObjectMeta.UID := metav1.ObjectMeta.UID m;
          metav1.ObjectMeta.ResourceVersion := rv;
          metav1.ObjectMeta.OwnerReferences := metav1.ObjectMeta.OwnerReferences m |};
     appsv1.Spec := appsv1.Spec d |}.

Definition notOwnedLine (dep : appsv1.Deployment) : string :=
  "Deployment " +:+ metav1.ObjectMeta.Namespace (appsv1.ObjectMeta dep) +:+ ":"
    +:+ depName dep +:+ " is not owned by us.".

Section loop.

(** The server behind the client: its answer to a create or update call,
    given the calls issued before. *)
Variable transport :
  list (Request appsv1.Deployment) -> Request appsv1.Deployment -> Answer.

(** The call [client.UpdateDeployment] or [client.AddDeployment]. *)
Definition call (req : Request appsv1.Deployment) (w : World)
  : option error * World :=
  (result (transport (requests w) req), issue req w).

(** The body of the loop of [synchronize] for one [item]: [Done None] when
    the loop goes on to the next item (by [continue] or by reaching the end
    of the body), [Done (Some err)] when [synchronize] returns [err]. *)
Definition synchronizeItem (item : string) (status : controllerStatus)
    (w : World) : outcome (option error) * controllerStatus * World :=
  match foos status !! item with
  | None => (Done None, setTodo (todo status ∖ {[item]}) status, w)
  | Some foo =>
      match deployments status !! DeploymentName (Spec foo) with
      | Some dep =>
          if negb (metav1.IsControlledBy (appsv1.ObjectMeta dep) (ObjectMeta foo))
          then (Done None, status, Printf (notOwnedLine dep) w)
          else
            match appsv1.Replicas (appsv1.Spec dep) with
            | None => (Panic, status, w)
            | Some replicas =>
                if Replicas (Spec foo) =? replicas
                then (Done None, setTodo (todo status ∖ {[item]}) status, w)
                else
                  let newDep :=
                    withResourceVersion
                      (metav1.ObjectMeta.ResourceVersion (appsv1.ObjectMeta dep))
                      (newDeployment foo) in
                  match call (UpdateDeployment newDep) w with
                  | (Some err, w') => (Done (Some err), status, w')
                  | (None, w') =>
                      (Done None, setTodo (todo status ∖ {[item]}) status, w')
                  end
            end
      | None =>
          match call (AddDeployment (newDeployment foo)) w with
          | (Some err, w') => (Done (Some err), status, w')
          | (None, w') =>
              (Done None, setTodo (todo status ∖ {[item]}) status, w')
          end
      end
  end.

(** [synchronize]: [order] is the order in which [range status.todo] yields
    the names. *)
Fixpoint synchronize (order : list string) (status : controllerStatus)
    (w : World) : outcome (option error) * controllerStatus * World :=
  match order with
  | [] => (Done None, status, w)
  | item :: order' =>
      match synchronizeItem item status w with
      | (Done None, status', w') => synchronize order' status' w'
      | r => r
      end
  end.

(** The closure [addTODO] of [processResources]. *)
Fixpoint addTODO (refs : list metav1.OwnerReference.t)
    (status : controllerStatus) (w : World) : controllerStatus * World :=
  match refs with
  | [] => (status, w)
  | o :: refs' =>
      if bool_decide (metav1.OwnerReference.Kind o = Kind)
      then (setTodo (todo status ∪ {[metav1.OwnerReference.Name o]}) status,
            AskTick w)
      else addTODO refs' status w
  end.

(** The local variables of [processResources]: the status, and for each
    channel whether the variable still holds it ([true]) or was set to nil. *)
Record Loop : Type := {
  status : controllerStatus;
  deploymentsCh : bool;
  foosCh : bool
}.

(** What a receive from a watch channel yields. *)
Inductive Recv (T : Type) : Type :=
| Closed
| Msg (ev : WatchEvent T).
Arguments Closed {T}.
Arguments Msg {T} _.

(** [v, ok := <-ch]: the zero value and false once the channel is closed. *)
Definition recv {T} (r : Recv T) : WatchEvent T * bool :=
  match r with
  | Closed => (mkWatchEvent false None None, false)
  | Msg ev => (ev, true)
  end.

(** The case of the select that fires, with what it receives.  A tick
    carries the order in which the pass it starts will range over [todo]. *)
Inductive Input : Type :=
| FromDeployments (r : Recv appsv1.Deployment)
| FromFoos (r : Recv Foo)
| Tick (order : list string).

(** Where [processResources] is after one iteration. *)
Inductive Next : Type :=
| Continue (l : Loop)     (* back at the select *)
| Return                  (* returned; the deferred close of c.Errors ran *)
| Crash.                  (* panicked; the deferred close of c.Errors ran
                             while the panic unwound *)

(** The check at the end of the loop body. *)
Definition bothClosed (l : Loop) (w : World) : Next * World :=
  if negb (deploymentsCh l) && negb (foosCh l)
  then (Return, closeErrors w)
  else (Continue l, w).

(** A select case is ready only on a channel variable that is not nil, and
    a pass ranges over exactly the names of [todo]. *)
Definition enabled (l : Loop) (i : Input) : bool :=
  match i with
  | FromDeployments _ => deploymentsCh l
  | FromFoos _ => foosCh l
  | Tick order =>
      bool_decide (NoDup order) &&
      bool_decide (list_to_set order = todo (status l))
  end.

(** One iteration of the [for] loop of [processResources].  The function
    starts with [defer close(c.Errors)]: the close runs when the function
    returns and also when it panics. *)
Definition iteration (l : Loop) (i : Input) (w : World) : Next * World :=
  match i with
  | FromDeployments r =>
      let '(d, ok) := recv r in
      match Err d with
      | Some err =>
          (Return, closeErrors (sendError (Errorf_w "Reading deployments: " err) w))
      | None =>
          if negb ok
          then bothClosed {| status := status l; deploymentsCh := false;
                             foosCh := foosCh l |} w
          else
            match Item d with
            | None => (Crash, closeErrors w)
            | Some newDeployment =>
                let st := status l in
                let oldDeployment := deployments st !! depName newDeployment in
                let st1 :=
                  if IsDelete d
                  then setDeployments (delete (depName newDeployment) (deployments st)) st
                  else setDeployments
                         (<[depName newDeployment := newDeployment]> (deployments st)) st in
                let '(st2, w2) :=
                  addTODO (metav1.ObjectMeta.OwnerReferences
                             (appsv1.ObjectMeta newDeployment)) st1 w in
                let '(st3, w3) :=
                  match oldDeployment with
                  | Some old =>
                      addTODO (metav1.ObjectMeta.OwnerReferences
                                 (appsv1.ObjectMeta old)) st2 w2
                  | None => (st2, w2)
                  end in
                bothClosed {| status := st3; deploymentsCh := deploymentsCh l;
                              foosCh := foosCh l |} w3
            end
      end
  | FromFoos r =>
      let '(f, ok) := recv r in
      match Err f with
      | Some err =>
          (Return, closeErrors (sendError (Errorf_w "Reading Foos: " err) w))
      | None =>
          if negb ok
          then bothClosed {| status := status l; deploymentsCh := deploymentsCh l;
                             foosCh := false |} w
          else
            match Item f with
            | None => (Crash, closeErrors w)
            | Some newFoo =>
                let w1 := AskTick w in
                let st := status l in
                let st1 :=
                  if IsDelete f
                  then setFoos (delete (fooName newFoo) (foos st)) st
                  else setFoos (<[fooName newFoo := newFoo]> (foos st)) st in
                let st2 := setTodo (todo st1 ∪ {[fooName newFoo]}) st1 in
                bothClosed {| status := st2; deploymentsCh := deploymentsCh l;
                              foosCh := foosCh l |} w1
            end
      end
  | Tick order =>
      match synchronize order (status l) w with
      | (Panic, _, w') => (Crash, closeErrors w')
      | (Done (Some err), st', w') =>
          bothClosed {| status := st'; deploymentsCh := deploymentsCh l;
                        foosCh := foosCh l |}
            (AskTick (Printf ("Synchronize failed, will retry: " +:+ Error err) w'))
      | (Done None, st', w') =>
          bothClosed {| status := st'; deploymentsCh := deploymentsCh l;
                        foosCh := foosCh l |} w'
      end
  end.

(** *** The controller as a whole *)

(** A stop channel field of [Controller]: nil, open, or closed. *)
Inductive stopChan : Type := chanNil | chanOpen | chanClosed.

(** The states of section 4.3.  Draining is not a state of its own in the
    code: it is [Running] with the stop channels closed. *)
Inductive Phase : Type :=
| Starting
| Running (l : Loop)
| Stopped
| Panicked.

Record Controller : Type := {
  stopFoos : stopChan;
  stopDeployments : stopChan;
  phase : Phase;
  world : World
}.

(** [NewController], before the goroutine of [start] has run. *)
Definition NewController : Controller :=
  {| stopFoos := chanNil; stopDeployments := chanNil; phase := Starting;
     world := newWorld |}.

Definition newLoop : Loop :=
  {| status := {| foos := ∅; deployments := ∅; todo := ∅ |};
     deploymentsCh := true; foosCh := true |}.

(** [startAux] up to the call of [processResources]: [crd] is the result
    of [addFooCRD]. *)
Definition startAux (crd : outcome (option error)) (c : Controller) : Controller :=
  match crd with
  | Panic =>
      {| stopFoos := stopFoos c; stopDeployments := stopDeployments c;
         phase := Panicked; world := world c |}
  | Done (Some err) =>
      {| stopFoos := stopFoos c; stopDeployments := stopDeployments c;
         phase := Stopped;
         world := closeErrors (sendError (Errorf_w "Could not add CRD: " err) (world c)) |}
  | Done None =>
      {| stopFoos := chanOpen; stopDeployments := chanOpen;
         phase := Running newLoop; world := world c |}
  end.

(** [close(ch)] guarded by [ch != nil]; closing a closed channel panics. *)
Definition closeIfNotNil (ch : stopChan) : outcome stopChan :=
  match ch with
  | chanNil => Done chanNil
  | chanOpen => Done chanClosed
  | chanClosed => Panic
  end.

(** [RequestStop]. *)
Definition RequestStop (c : Controller) : Controller :=
  match closeIfNotNil (stopFoos c) with
  | Panic =>
      {| stopFoos := stopFoos c; stopDeployments := stopDeployments c;
         phase := Panicked; world := world c |}
  | Done sf =>
      match closeIfNotNil (stopDeployments c) with
      | Panic =>
          {| stopFoos := sf; stopDeployments := stopDeployments c;
             phase := Panicked; world := world c |}
      | Done sd =>
          {| stopFoos := sf; stopDeployments := sd; phase := phase c;
             world := world c |}
      end
  end.

(** What happens to the controller: the goroutine of [start] runs
    [startAux] with the result of [addFooCRD], the host calls
    [RequestStop], or the select of [processResources] fires. *)
Inductive Event : Type :=
| EvStart (crd : outcome (option error))
| EvRequestStop
| EvSelect (i : Input).

(** One event; [None] when the event cannot happen in this state. *)
Definition next (c : Controller) (e : Event) : option Controller :=
  match e, phase c with
  | EvStart crd, Starting => Some (startAux crd c)
  | EvRequestStop, Panicked => None
  | EvRequestStop, _ => Some (RequestStop c)
  | EvSelect i, Running l =>
      if enabled l i then
        let '(n, w) := iteration l i (world c) in
        Some {| stopFoos := stopFoos c; stopDeployments := stopDeployments c;
                phase := match n with
                         | Continue l' => Running l'
                         | Return => Stopped
                         | Crash => Panicked
                         end;
                world := w |}
      else None
  | _, _ => None
  end.

Fixpoint exec (c : Controller) (es : list Event) : option Controller :=
  match es with
  | [] => Some c
  | e :: es' =>
      match next c e with
      | Some c' => exec c' es'
      | None => None
      end
  end.

End loop.

Arguments Closed {T}.
Arguments Msg {T} _.

(** *** addFooCRD through the wire client *)

Section crd.

Variable jsonDecoder : string -> list frame.
Variable jsonUnmarshal : string -> apiextensionsv1.CustomResourceDefinition + error.

(** [addFooCRD]: [post] is the server's answer to the registration POST
    and [watch] its answer to the GET of the watch that follows.  The stop
    channel of that watch is closed only when [addCRD] returns. *)
Definition addFooCRD (post : Answer) (watch : RoundTrip)
  : outcome (option error) :=
  addCRD (result post)
    (produceResources jsonDecoder jsonUnmarshal (fun _ => false)
       "customresourcedefinitions" watch).

End crd.

End controller.

(** * The vocabulary of the properties, and examples *)

Section frames.

Import kubeapi.

Context {T : Type}.
Variable jsonUnmarshal : string -> T + error.

(** The event a frame decodes to, when it is a well-formed envelope with a
    known type and a payload that unmarshals. *)
Definition frameEvent (f : frame) : option (WatchEvent T) :=
  match f with
  | Malformed _ => None
  | Envelope we =>
      match parseEventType (metav1.Type_ we), jsonUnmarshal (metav1.Raw we) with
      | (isDelete, None), inl obj => Some (itemEvent isDelete obj)
      | _, _ => None
      end
  end.

(** The error a frame stands for otherwise: a malformed envelope, an
    unknown type, or a payload that does not unmarshal. *)
Definition frameError (path : string) (f : frame) : option error :=
  match f with
  | Malformed err => Some (decodeError path err)
  | Envelope we =>
      match parseEventType (metav1.Type_ we), jsonUnmarshal (metav1.Raw we) with
      | (_, Some err), _ => Some err
      | (_, None), inr err => Some (Errorf_w "Unmarshaling of resource failed: " err)
      | (_, None), inl _ => None
      end
  end.

End frames.

(** A decoder and an unmarshaller for examples: the body is one character
    per envelope, [x] an envelope of type XYZ, [a] one of type ADDED, [d]
    one of type DELETED, anything else malformed; a payload unmarshals to
    its own text unless it is empty. *)
Definition exampleFrame (c : Ascii.ascii) : kubeapi.frame :=
  if bool_decide (String c EmptyString = "x")
  then kubeapi.Envelope {| metav1.Type_ := "XYZ"; metav1.Raw := "{}" |}
  else if bool_decide (String c EmptyString = "a")
  then kubeapi.Envelope {| metav1.Type_ := "ADDED"; metav1.Raw := "{}" |}
  else if bool_decide (String c EmptyString = "d")
  then kubeapi.Envelope {| metav1.Type_ := "DELETED"; metav1.Raw := "{}" |}
  else kubeapi.Malformed (errorString "invalid character").

Definition exampleDecoder (body : string) : list kubeapi.frame :=
  map exampleFrame (String.list_ascii_of_string body).

Definition exampleUnmarshal (raw : string) : string + error :=
  if bool_decide (raw = EmptyString)
  then inr (errorString "unexpected end of JSON input")
  else inl raw.

(** An unmarshaller for the examples: every payload that is not empty is a
    definition that reports the condition Established. *)
Definition exampleUnmarshalCRD (raw : string)
  : apiextensionsv1.CustomResourceDefinition + error :=
  if bool_decide (raw = EmptyString)
  then inr (errorString "unexpected end of JSON input")
  else inl {| apiextensionsv1.Name := "foos.samplecontroller.example.com";
              apiextensionsv1.Conditions :=
                [ {| apiextensionsv1.Type_ := "Established";
                     apiextensionsv1.Status := "True" |} ] |}.

Definition runningController : controller.Controller :=
  {| controller.stopFoos := controller.chanOpen;
     controller.stopDeployments := controller.chanOpen;
     controller.phase := controller.Running controller.newLoop;
     controller.world := controller.newWorld |}.

(** An event that the loop of [addCRD] passes over: a deletion, or a
    definition that does not report the condition Established yet. *)
Definition passedOver
    (res : kubeapi.WatchEvent apiextensionsv1.CustomResourceDefinition) : Prop :=
  kubeapi.Err res = None /\
  (kubeapi.IsDelete res = true \/
   exists item, kubeapi.Item res = Some item /\ controller.established item = false).

(** A server that answers every create and update call with 201. *)
Definition alwaysCreated (_ : list (kubeapi.Request appsv1.Deployment))
    (_ : kubeapi.Request appsv1.Deployment) : kubeapi.Answer :=
  {| kubeapi.marshalErr := None;
     kubeapi.roundTrip := kubeapi.Response 201 EmptyString;
     kubeapi.closeErr := None |}.

Definition stoppedOn404 : controller.Controller :=
  {| controller.stopFoos := controller.chanNil;
     controller.stopDeployments := controller.chanNil;
     controller.phase := controller.Stopped;
     controller.world :=
       controller.closeErrors
         (controller.sendError
            (Errorf_w "Could not add CRD: " (RequestError 404 "dummy"))
            controller.newWorld) |}.

(** The create or update call that [synchronize] builds for [foo] was
    issued between the worlds [w] and [w'] and the server answered it with
    success. *)
Definition issuedFor
    (transport : list (kubeapi.Request appsv1.Deployment) ->
                 kubeapi.Request appsv1.Deployment -> kubeapi.Answer)
    (st : controller.controllerStatus) (w w' : controller.World)
    (foo : controller.Foo) : Prop :=
  exists req before after,
    controller.requests w' = before ++ req :: after /\
    controller.requests w `prefix_of` before /\
    kubeapi.result (transport before req) = None /\
    (req = kubeapi.AddDeployment (controller.newDeployment foo) \/
     exists dep,
       controller.deployments st !! controller.DeploymentName (controller.Spec foo)
         = Some dep /\
       req = kubeapi.UpdateDeployment
               (controller.withResourceVersion
                  (metav1.ObjectMeta.ResourceVersion (appsv1.ObjectMeta dep))
                  (controller.newDeployment foo))).

(** The work for the name [n] is completed or unnecessary: there is no
    desired entry, or the owned deployment has the desired replica count, or
    a create or update call for it has succeeded. *)
Definition settled
    (transport : list (kubeapi.Request appsv1.Deployment) ->
                 kubeapi.Request appsv1.Deployment -> kubeapi.Answer)
    (st : controller.controllerStatus) (w w' : controller.World)
    (n : string) : Prop :=
  controller.foos st !! n = None \/
  (exists foo dep,
     controller.foos st !! n = Some foo /\
     controller.deployments st !! controller.DeploymentName (controller.Spec foo)
       = Some dep /\
     metav1.IsControlledBy (appsv1.ObjectMeta dep) (controller.ObjectMeta foo) = true /\
     appsv1.Replicas (appsv1.Spec dep)
       = Some (controller.Replicas (controller.Spec foo))) \/
  (exists foo, controller.foos st !! n = Some foo /\ issuedFor transport st w w' foo).

(** The observed deployment of the desired entry [n] is controlled by
    someone else. *)
Definition conflict (st : controller.controllerStatus) (n : string) : Prop :=
  exists foo dep,
    controller.foos st !! n = Some foo /\
    controller.deployments st !! controller.DeploymentName (controller.Spec foo)
      = Some dep /\
    metav1.IsControlledBy (appsv1.ObjectMeta dep) (controller.ObjectMeta foo) = false.

(** The owner that [addTODO] marks for a list of owner references: the
    name of the first one of kind Foo. *)
Definition firstOwner (refs : list metav1.OwnerReference.t) : option string :=
  metav1.OwnerReference.Name <$>
    find (fun o => bool_decide (metav1.OwnerReference.Kind o = controller.Kind)) refs.

Definition marked (dep : appsv1.Deployment) : gset string :=
  match firstOwner (metav1.ObjectMeta.OwnerReferences (appsv1.ObjectMeta dep)) with
  | Some n => {[n]}
  | None => ∅
  end.

Definition ticksAsked (dep : appsv1.Deployment) : nat :=
  match firstOwner (metav1.ObjectMeta.OwnerReferences (appsv1.ObjectMeta dep)) with
  | Some _ => 1
  | None => 0
  end.

(** What holds of every state the controller reaches: nothing is on the
    error output while the loop runs, the loop runs only while one of its
    channels is still open, and a stopped controller has closed its error
    output after at most one error. *)
Definition wellStarted (c : controller.Controller) : Prop :=
  match controller.phase c with
  | controller.Starting => controller.world c = controller.newWorld
  | controller.Running l =>
      controller.Errors (controller.world c) = [] /\
      controller.ErrorsClosed (controller.world c) = false /\
      (controller.deploymentsCh l = true \/ controller.foosCh l = true)
  | controller.Stopped =>
      controller.ErrorsClosed (controller.world c) = true /\
      (length (controller.Errors (controller.world c)) <= 1)%nat
  | controller.Panicked => True
  end.

Definition exampleFoo : controller.Foo :=
  {| controller.ObjectMeta :=
       {| metav1.ObjectMeta.Name := "abc";
          metav1.ObjectMeta.Namespace := "xyz";
          metav1.ObjectMeta.UID := "2a198646-da46-417a-be53-b8cd5fcfbdda";
          metav1.ObjectMeta.ResourceVersion := EmptyString;
          metav1.ObjectMeta.OwnerReferences := [] |};
     controller.Spec := {| controller.DeploymentName := "bar";
                           controller.Replicas := 1 |} |}.

Definition fooRef (name uid : string) (isController : option bool)
  : metav1.OwnerReference.t :=
  {| metav1.OwnerReference.APIVersion := "samplecontroller.example.com/v1alpha1";
     metav1.OwnerReference.Kind := "Foo";
     metav1.OwnerReference.Name := name;
     metav1.OwnerReference.UID := uid;
     metav1.OwnerReference.Controller := isController;
     metav1.OwnerReference.BlockOwnerDeletion := isController |}.

Definition exampleDeployment (refs : list metav1.OwnerReference.t)
    (replicas : option Z) : appsv1.Deployment :=
  {| appsv1.ObjectMeta :=
       {| metav1.ObjectMeta.Name := "bar";
          metav1.ObjectMeta.Namespace := "xyz";
          metav1.ObjectMeta.UID := "d-1";
          metav1.ObjectMeta.ResourceVersion := "7";
          metav1.ObjectMeta.OwnerReferences := refs |};
     appsv1.Spec := {| appsv1.Replicas := replicas |} |}.

Definition exampleUnmarshalFoo (raw : string) : controller.Foo + error :=
  if bool_decide (raw = EmptyString)
  then inr (errorString "unexpected end of JSON input")
  else inl exampleFoo.

(** A deployment with two owners of kind Foo. *)
Definition twoOwners : appsv1.Deployment :=
  exampleDeployment [fooRef "a" "u-a" None; fooRef "b" "u-b" (Some true)] (Some 1).

(** The loop has stopped on the error [e]: it is the one value on the error
    output, the output is closed, the stop channels are as they were, no
    call was issued, and the select never fires again. *)
Definition stoppedBy
    (transport : list (kubeapi.Request appsv1.Deployment) ->
                 kubeapi.Request appsv1.Deployment -> kubeapi.Answer)
    (c c' : controller.Controller) (e : error) : Prop :=
  controller.phase c' = controller.Stopped /\
  controller.Errors (controller.world c') = [e] /\
  controller.ErrorsClosed (controller.world c') = true /\
  controller.stopFoos c' = controller.stopFoos c /\
  controller.stopDeployments c' = controller.stopDeployments c /\
  controller.requests (controller.world c') = controller.requests (controller.world c) /\
  forall i, controller.next transport c' (controller.EvSelect i) = None.

Definition drainingController : controller.Controller :=
  {| controller.stopFoos := controller.chanClosed;
     controller.stopDeployments := controller.chanClosed;
     controller.phase := controller.Running controller.newLoop;
     controller.world := controller.newWorld |}.

Definition stoppedController : controller.Controller :=
  {| controller.stopFoos := controller.chanClosed;
     controller.stopDeployments := controller.chanClosed;
     controller.phase := controller.Stopped;
     controller.world := controller.closeErrors controller.newWorld |}.

(** The reading of ownership in the text of the specification: some owner
    reference of the deployment has the kind of the managed resource, its
    name and its unique id, and the controlling flag set. *)
Definition establishesOwner (dep : appsv1.Deployment) (foo : controller.Foo) : bool :=
  existsb
    (fun o =>
       bool_decide (metav1.OwnerReference.Kind o = controller.Kind) &&
       bool_decide (metav1.OwnerReference.Name o = controller.fooName foo) &&
       bool_decide (metav1.OwnerReference.UID o
                    = metav1.ObjectMeta.UID (controller.ObjectMeta foo)) &&
       bool_decide (metav1.OwnerReference.Controller o = Some true))
    (metav1.ObjectMeta.OwnerReferences (appsv1.ObjectMeta dep)).

(** A deployment controlled by an object of another kind and name that
    carries the unique id of [exampleFoo]. *)
Definition strangerOwned : appsv1.Deployment :=
  exampleDeployment
    [ {| metav1.OwnerReference.APIVersion := "example.com/v1";
         metav1.OwnerReference.Kind := "Bar";
         metav1.OwnerReference.Name := "other";
         metav1.OwnerReference.UID := "2a198646-da46-417a-be53-b8cd5fcfbdda";
         metav1.OwnerReference.Controller := Some true;
         metav1.OwnerReference.BlockOwnerDeletion := Some true |} ]
    (Some 3).

Definition observing (dep : appsv1.Deployment) : controller.controllerStatus :=
  {| controller.foos := {["abc" := exampleFoo]};
     controller.deployments := {["bar" := dep]};
     controller.todo := {["abc"]} |}.

(** A server that refuses three replicas, as in the tests. *)
Definition refusesThree (_ : list (kubeapi.Request appsv1.Deployment))
    (req : kubeapi.Request appsv1.Deployment) : kubeapi.Answer :=
  {| kubeapi.marshalErr := None;
     kubeapi.roundTrip :=
       if bool_decide (appsv1.Replicas (appsv1.Spec (kubeapi.Body req)) = Some 3)
       then kubeapi.Response 401 "3 is not OK"
       else kubeapi.Response 201 EmptyString;
     kubeapi.closeErr := None |}.

Definition fooNamed (name target : string) (replicas : Z) : controller.Foo :=
  {| controller.ObjectMeta :=
       {| metav1.ObjectMeta.Name := name;
          metav1.ObjectMeta.Namespace := "xyz";
          metav1.ObjectMeta.UID := "uid-" +:+ name;
          metav1.ObjectMeta.ResourceVersion := EmptyString;
          metav1.ObjectMeta.OwnerReferences := [] |};
     controller.Spec := {| controller.DeploymentName := target;
                           controller.Replicas := replicas |} |}.

(** Two dirty names: the call for the first succeeds, the call for the
    second is refused. *)
Definition twoDirty : controller.controllerStatus :=
  {| controller.foos :=
       {["one" := fooNamed "one" "dep-one" 1; "two" := fooNamed "two" "dep-two" 3]};
     controller.deployments := ∅;
     controller.todo := {["one"; "two"]} |}.

Definition afterOne : controller.controllerStatus :=
  controller.setTodo {["two"]} twoDirty.

Definition worldAfterTwo : controller.World :=
  controller.issue
    (kubeapi.AddDeployment (controller.newDeployment (fooNamed "two" "dep-two" 3)))
    (controller.issue
       (kubeapi.AddDeployment (controller.newDeployment (fooNamed "one" "dep-one" 1)))
       controller.newWorld).

(** A deployment of [exampleFoo] whose JSON had no [spec.replicas]. *)
Definition noReplicas : appsv1.Deployment :=
  exampleDeployment
    [metav1.NewControllerRef (controller.ObjectMeta exampleFoo)
       controller.Group controller.Version controller.Kind]
    None.

(** How often the transition [l] occurs in a run of the debouncer. *)
Fixpoint times (l : ratelimit.label) (ls : list ratelimit.label) : nat :=
  match ls with
  | [] => 0
  | l' :: ls' =>
      ((match l, l' with
        | ratelimit.RecvStop, ratelimit.RecvStop
        | ratelimit.RecvAsk, ratelimit.RecvAsk
        | ratelimit.RecvTimer, ratelimit.RecvTimer
        | ratelimit.SendTick, ratelimit.SendTick
        | ratelimit.TimerFires, ratelimit.TimerFires => 1
        | _, _ => 0
        end) + times l ls')%nat
  end.

(** One for a timer that is armed, a value that waits in [timer.C], or a
    tick that waits to be read. *)
Definition pending (b : bool) : nat := if b then 1 else 0.

(** A stop channel that is closed from the [m]-th call of [send] on. *)
Definition closedFrom (m : nat) (n : nat) : bool := bool_decide (m <= n)%nat.

(** The call [req] is one that a pass over [order] may issue in the status
    [st]: a create for a desired entry whose deployment is not observed, or
    an update for one whose observed deployment it controls and that has
    another replica count, carrying the observed resource version. *)
Definition justified (st : controller.controllerStatus) (order : list string)
    (req : kubeapi.Request appsv1.Deployment) : Prop :=
  exists item foo,
    item ∈ order /\ controller.foos st !! item = Some foo /\
    ((controller.deployments st !! controller.DeploymentName (controller.Spec foo)
        = None /\
      req = kubeapi.AddDeployment (controller.newDeployment foo)) \/
     (exists dep replicas,
        controller.deployments st !! controller.DeploymentName (controller.Spec foo)
          = Some dep /\
        metav1.IsControlledBy (appsv1.ObjectMeta dep) (controller.ObjectMeta foo)
          = true /\
        appsv1.Replicas (appsv1.Spec dep) = Some replicas /\
        replicas <> controller.Replicas (controller.Spec foo) /\
        req = kubeapi.UpdateDeployment
                (controller.withResourceVersion
                   (metav1.ObjectMeta.ResourceVersion (appsv1.ObjectMeta dep))
                   (controller.newDeployment foo)))).

(** The server's answers to the calls [new], issued in this order after
    the calls [hist]. *)
Fixpoint answers
    (transport : list (kubeapi.Request appsv1.Deployment) ->
                 kubeapi.Request appsv1.Deployment -> kubeapi.Answer)
    (hist new : list (kubeapi.Request appsv1.Deployment)) : list (option error) :=
  match new with
  | [] => []
  | req :: new' =>
      kubeapi.result (transport hist req) :: answers transport (hist ++ [req]) new'
  end.

(** A call for a deployment of the controller's own making: the create or
    the update of [newDeployment foo] for some managed resource [foo]. *)
Definition ownCall (req : kubeapi.Request appsv1.Deployment) : Prop :=
  exists foo,
    req = kubeapi.AddDeployment (controller.newDeployment foo) \/
    exists rv,
      req = kubeapi.UpdateDeployment
              (controller.withResourceVersion rv (controller.newDeployment foo)).

(** Both maps of the status are keyed by the name of the object they hold. *)
Definition keyed (st : controller.controllerStatus) : Prop :=
  (forall n foo, controller.foos st !! n = Some foo -> controller.fooName foo = n) /\
  (forall n dep, controller.deployments st !! n = Some dep ->
                 controller.depName dep = n).

(** The errors that reach the error output: those of the registration and
    those of the two watch streams, each under its prefix. *)
Definition fatal (e : error) : Prop :=
  exists inner,
    e = Errorf_w "Could not add CRD: " inner \/
    e = Errorf_w "Reading deployments: " inner \/
    e = Errorf_w "Reading Foos: " inner.

(** * Properties *)

(** ** The watch producer *)

Section produce_facts.

Import kubeapi.

Context {T : Type}.
Variable jsonDecoder : string -> list frame.
Variable jsonUnmarshal : string -> T + error.

Lemma frameEvent_or_Error path f :
  (exists ev, frameEvent jsonUnmarshal f = Some ev /\ frameError jsonUnmarshal path f = None) \/
  (exists err, frameEvent jsonUnmarshal f = None /\ frameError jsonUnmarshal path f = Some err).
Proof.
  destruct f as [we|err]; simpl; [|right; eauto].
  destruct (parseEventType (metav1.Type_ we)) as [d [e|]]; [right; eauto|].
  destruct (jsonUnmarshal (metav1.Raw we)); [left|right]; eauto.
Qed.

(** While the stop channel stays open, the loop sends the events of the
    frames before the first bad one, then one error event for that frame,
    and returns: the frames behind it are never looked at. *)
Lemma decodeLoop_stops_at_first_error stopCh path good bad rest evs err n :
  (forall k, stopCh k = false) ->
  Forall2 (fun f ev => frameEvent jsonUnmarshal f = Some ev) good evs ->
  frameError jsonUnmarshal path bad = Some err ->
  decodeLoop jsonUnmarshal stopCh path (good ++ bad :: rest) n
  = evs ++ [errEvent err].
Proof.
  intros Hstop Hgood Hbad. revert n.
  induction Hgood as [|f ev good evs Hf _ IH]; intros n; simpl.
  - destruct bad as [we|e]; simpl in *.
    + destruct (parseEventType (metav1.Type_ we)) as [d [e|]].
      * unfold send. rewrite Hstop. congruence.
      * destruct (jsonUnmarshal (metav1.Raw we)); [done|].
        unfold send. rewrite Hstop. congruence.
    + unfold send. rewrite Hstop. congruence.
  - destruct f as [we|e]; simpl in Hf; [|done].
    destruct (parseEventType (metav1.Type_ we)) as [d [e|]]; [done|].
    destruct (jsonUnmarshal (metav1.Raw we)); [|done].
    unfold send. rewrite Hstop. simpl. rewrite IH. congruence.
Qed.

(** A body that ends without a bad frame ends the same way, with the error
    of the failed read at its end. *)
Lemma decodeLoop_stops_at_EOF stopCh path good evs n :
  (forall k, stopCh k = false) ->
  Forall2 (fun f ev => frameEvent jsonUnmarshal f = Some ev) good evs ->
  decodeLoop jsonUnmarshal stopCh path good n
  = evs ++ [errEvent (decodeError path EOF)].
Proof.
  intros Hstop Hgood. revert n.
  induction Hgood as [|f ev good evs Hf _ IH]; intros n; simpl.
  - unfold send. by rewrite Hstop.
  - destruct f as [we|e]; simpl in Hf; [|done].
    destruct (parseEventType (metav1.Type_ we)) as [d [e|]]; [done|].
    destruct (jsonUnmarshal (metav1.Raw we)); [|done].
    unfold send. rewrite Hstop. simpl. rewrite IH. congruence.
Qed.

(** The current revision of [produceResources] does what the protocol
    asks: one error event for the first bad frame, last on the channel. *)
Lemma produceResources_one_terminal_error stopCh path body good bad rest evs err :
  (forall k, stopCh k = false) ->
  jsonDecoder body = good ++ bad :: rest ->
  Forall2 (fun f ev => frameEvent jsonUnmarshal f = Some ev) good evs ->
  frameError jsonUnmarshal path bad = Some err ->
  produceResources jsonDecoder jsonUnmarshal stopCh path (Response 200 body)
  = evs ++ [errEvent err]
  /\ Forall (fun ev => Err ev = None) evs.
Proof.
  intros Hstop Hbody Hgood Hbad. split.
  - unfold produceResources. simpl. rewrite Hbody.
    by apply decodeLoop_stops_at_first_error.
  - clear Hbody. induction Hgood as [|f ev good evs Hf _ IH]; constructor; [|done].
    destruct f as [we|e]; simpl in Hf; [|done].
    destruct (parseEventType (metav1.Type_ we)) as [d [e|]]; [done|].
    destruct (jsonUnmarshal (metav1.Raw we)); [|done].
    by inversion Hf.
Qed.

End produce_facts.

(** C2 (the earlier revision of the wire client).  On a body whose first
    envelope has the type XYZ and whose second is a well-formed ADDED
    envelope, the earlier [produceResources] sends the error event for the
    type, then the object of the first envelope, then the event of the
    second envelope, and only then the error of the failed read: two error
    events, with envelopes read and sent after the first one. *)
Theorem produceResources_v0_reads_on_after_error :
  kubeapi.produceResources_v0 exampleDecoder exampleUnmarshal (fun _ => false)
    "deployments" (kubeapi.Response 200 "xa")
  = [ kubeapi.errEvent (errorString "Invalid EventType: XYZ");
      kubeapi.itemEvent false "{}";
      kubeapi.itemEvent false "{}";
      kubeapi.errEvent
        (wrapError "Could not decode WatchEvent(deployments): EOF" kubeapi.EOF) ].
Proof. reflexivity. Qed.

(** On the same body the current revision sends the one error event and
    closes the channel. *)
Lemma produceResources_same_input :
  kubeapi.produceResources exampleDecoder exampleUnmarshal (fun _ => false)
    "deployments" (kubeapi.Response 200 "xa")
  = [ kubeapi.errEvent (errorString "Invalid EventType: XYZ") ].
Proof. reflexivity. Qed.

(** ** The debouncer *)

Section ratelimit_facts.

Import ratelimit.

Lemma run_Returned ls g : run Returned ls = Some g -> ls = [] /\ g = Returned.
Proof. destruct ls; simpl; [|done]. by intros [= <-]. Qed.

(** The goroutine has returned exactly when it has received from
    [ret.stop]. *)
Lemma run_Returned_iff g ls a c t :
  run (Select a c t) ls = Some g -> (g = Returned <-> RecvStop ∈ ls).
Proof.
  revert a c t. induction ls as [|l ls IH]; intros a c t.
  - intros [= <-]. split; [done|]. by intros ?%elem_of_nil.
  - assert (Hgo : forall a' c' t', l <> RecvStop ->
              run (Select a' c' t') ls = Some g ->
              g = Returned <-> RecvStop ∈ l :: ls).
    { intros a' c' t' Hl H. destruct (IH _ _ _ H) as [H1 H2].
      split; [intros Hg; apply elem_of_cons; auto|].
      intros [?|?]%elem_of_cons; [done|auto]. }
    destruct l, a, c, t; simpl; try done; try (by apply Hgo);
      intros [-> ->]%run_Returned; (split; [intros _; apply elem_of_cons; auto|done]).
Qed.

Lemma AskTick_returns_Select a c t : AskTick_returns (Select a c t).
Proof. exists [], (Select true false t). by destruct a, c, t. Qed.

Lemma AskTick_blocks_Returned : ~ AskTick_returns Returned.
Proof. intros (ls & g & H). apply run_Returned in H as [H _]. by destruct ls. Qed.

End ratelimit_facts.

(** C7, as the code has it.  In every state the debouncer reaches, a call
    of [AskTick()] can return exactly when [Stop()] has not been called:
    while the goroutine is alive it is at its select and takes the request
    at once; once it has received from [ret.stop] it has returned, nothing
    receives from the unbuffered [ret.ask] any more, and the caller blocks
    forever. *)
Theorem AskTick_returns_iff_not_stopped (ls : list ratelimit.label) g :
  ratelimit.run ratelimit.AfterOneSecondIdle ls = Some g ->
  (ratelimit.AskTick_returns g <-> ratelimit.RecvStop ∉ ls).
Proof.
  intros H. destruct (run_Returned_iff g ls _ _ _ H) as [H1 H2].
  destruct g as [a c t|].
  - split; [|intros _; apply AskTick_returns_Select].
    intros _ Hin. by specialize (H2 Hin).
  - split; [intros ?%AskTick_blocks_Returned; done|].
    intros Hn. destruct Hn. by apply H1.
Qed.

Lemma AskTick_returns_iff_not_stopped_witness :
  ratelimit.run ratelimit.AfterOneSecondIdle
    [ratelimit.RecvAsk; ratelimit.TimerFires; ratelimit.RecvTimer;
     ratelimit.SendTick]
  = Some (ratelimit.Select false false false)
  /\ (ratelimit.AskTick_returns (ratelimit.Select false false false) <->
      ratelimit.RecvStop ∉
        [ratelimit.RecvAsk; ratelimit.TimerFires; ratelimit.RecvTimer;
         ratelimit.SendTick]).
Proof.
  split; [reflexivity|].
  apply (AskTick_returns_iff_not_stopped
           [ratelimit.RecvAsk; ratelimit.TimerFires; ratelimit.RecvTimer;
            ratelimit.SendTick]).
  reflexivity.
Defined.

(** C7 as stated fails: after one [Stop()], a call of [AskTick()] never
    returns. *)
Lemma AskTick_after_Stop_blocks :
  exists g,
    ratelimit.run ratelimit.AfterOneSecondIdle [ratelimit.RecvStop] = Some g /\
    ~ ratelimit.AskTick_returns g.
Proof. exists ratelimit.Returned. split; [reflexivity|apply AskTick_blocks_Returned]. Qed.

(** ** Starting: the registration of the resource type *)

Section starting_facts.

Import kubeapi controller.

Variable transport :
  list (Request appsv1.Deployment) -> Request appsv1.Deployment -> Answer.

(** Once stopped with no watch opened, the controller stays as it is: the
    only event left is a [RequestStop] that finds both channels nil. *)
Lemma exec_Stopped_nil c es c' :
  phase c = Stopped -> stopFoos c = chanNil -> stopDeployments c = chanNil ->
  exec transport c es = Some c' ->
  c' = c /\ Forall (fun e => e = EvRequestStop) es.
Proof.
  intros Hp Hf Hd. revert c'. induction es as [|e es IH]; intros c'; simpl.
  - intros [= <-]. by split.
  - destruct e as [crd| |i]; simpl; rewrite Hp; try done.
    destruct c as [sf sd p w]; simpl in *; subst. simpl.
    intros H. destruct (IH _ H) as [-> Hall]. split; [done|].
    by constructor.
Qed.

Lemma waitEstablished_error skipped res rest e :
  Forall passedOver skipped -> Err res = Some e ->
  waitEstablished (skipped ++ res :: rest) = Done (Some e).
Proof.
  intros Hskip Herr. induction Hskip as [|r skipped [Hr Hcase] _ IH]; simpl.
  - by rewrite Herr.
  - rewrite Hr. destruct Hcase as [->|(item & -> & ->)]; [done|].
    by destruct (IsDelete r).
Qed.

End starting_facts.

(** C8.  A registration POST answered with 409 is not an error of
    [addCRD]: the result is that of the wait for the Established condition
    alone, whatever the watch sends; and against a server whose watch
    reports the definition established, the controller starts with both
    watches opened and nothing on its error output. *)
Theorem addFooCRD_conflict_is_success
    (jsonDecoder : string -> list kubeapi.frame)
    (jsonUnmarshal : string -> apiextensionsv1.CustomResourceDefinition + error)
    (body : string) (ce : option error) (watch : kubeapi.RoundTrip)
    (item : apiextensionsv1.CustomResourceDefinition)
    (rest : list (kubeapi.WatchEvent apiextensionsv1.CustomResourceDefinition)) :
  kubeapi.produceResources jsonDecoder jsonUnmarshal (fun _ => false)
    "customresourcedefinitions" watch = kubeapi.itemEvent false item :: rest ->
  controller.established item = true ->
  let post := {| kubeapi.marshalErr := None;
                 kubeapi.roundTrip := kubeapi.Response 409 body;
                 kubeapi.closeErr := ce |} in
  kubeapi.result post = Some (RequestError 409 body) /\
  (forall watch',
     controller.addFooCRD jsonDecoder jsonUnmarshal post watch'
     = controller.waitEstablished
         (kubeapi.produceResources jsonDecoder jsonUnmarshal (fun _ => false)
            "customresourcedefinitions" watch')) /\
  controller.addFooCRD jsonDecoder jsonUnmarshal post watch = controller.Done None /\
  controller.startAux (controller.addFooCRD jsonDecoder jsonUnmarshal post watch)
    controller.NewController = runningController.
Proof.
  intros Hwatch Hest post.
  assert (Hall : forall watch',
     controller.addFooCRD jsonDecoder jsonUnmarshal post watch'
     = controller.waitEstablished
         (kubeapi.produceResources jsonDecoder jsonUnmarshal (fun _ => false)
            "customresourcedefinitions" watch')) by done.
  assert (Hok : controller.addFooCRD jsonDecoder jsonUnmarshal post watch
                = controller.Done None).
  { rewrite Hall, Hwatch. simpl. by rewrite Hest. }
  split; [done|]. split; [done|]. split; [done|]. by rewrite Hok.
Qed.

Lemma addFooCRD_conflict_is_success_witness :
  kubeapi.produceResources exampleDecoder exampleUnmarshalCRD (fun _ => false)
    "customresourcedefinitions" (kubeapi.Response 200 "a")
  = kubeapi.itemEvent false
      {| apiextensionsv1.Name := "foos.samplecontroller.example.com";
         apiextensionsv1.Conditions :=
           [ {| apiextensionsv1.Type_ := "Established";
                apiextensionsv1.Status := "True" |} ] |}
    :: [kubeapi.errEvent
          (wrapError "Could not decode WatchEvent(customresourcedefinitions): EOF"
             kubeapi.EOF)]
  /\ controller.startAux
       (controller.addFooCRD exampleDecoder exampleUnmarshalCRD
          {| kubeapi.marshalErr := None;
             kubeapi.roundTrip := kubeapi.Response 409 "AlreadyExists";
             kubeapi.closeErr := None |}
          (kubeapi.Response 200 "a"))
       controller.NewController = runningController.
Proof.
  split; [reflexivity|].
  apply (addFooCRD_conflict_is_success exampleDecoder exampleUnmarshalCRD
           "AlreadyExists" None (kubeapi.Response 200 "a") _ _ eq_refl eq_refl).
Defined.

(** C6, as the code has it.  When [addFooCRD] returns an error, that error
    is sent once on the error output, prefixed, the output is closed, and
    the controller is stopped for good: the stop channels of the two
    watches are still nil, no call was issued, and the only events that can
    follow are stop requests that change nothing.  [addFooCRD] returns an
    error for a registration response outside 2xx other than 409, and for
    an error event of the watch that waits for the Established condition. *)
Theorem startAux_error_reported_once
    (transport : list (kubeapi.Request appsv1.Deployment) ->
                 kubeapi.Request appsv1.Deployment -> kubeapi.Answer)
    (err : error) (es : list controller.Event) (c : controller.Controller) :
  controller.exec transport controller.NewController
    (controller.EvStart (controller.Done (Some err)) :: es) = Some c ->
  (controller.phase c = controller.Stopped /\
   controller.Errors (controller.world c) = [Errorf_w "Could not add CRD: " err] /\
   controller.ErrorsClosed (controller.world c) = true /\
   controller.stopFoos c = controller.chanNil /\
   controller.stopDeployments c = controller.chanNil /\
   controller.requests (controller.world c) = [] /\
   Forall (fun e => e = controller.EvRequestStop) es) /\
  (forall jsonDecoder jsonUnmarshal code body ce watch,
     (code < 200 \/ 300 <= code) -> code <> 409 ->
     controller.addFooCRD jsonDecoder jsonUnmarshal
       {| kubeapi.marshalErr := None;
          kubeapi.roundTrip := kubeapi.Response code body;
          kubeapi.closeErr := ce |} watch
     = controller.Done (Some (RequestError code body))) /\
  (forall jsonDecoder jsonUnmarshal post watch skipped res rest e,
     asRequestError (kubeapi.result post) = None \/
     asRequestError (kubeapi.result post) = Some 409 ->
     kubeapi.produceResources jsonDecoder jsonUnmarshal (fun _ => false)
       "customresourcedefinitions" watch = skipped ++ res :: rest ->
     Forall passedOver skipped -> kubeapi.Err res = Some e ->
     controller.addFooCRD jsonDecoder jsonUnmarshal post watch
     = controller.Done (Some e)).
Proof.
  intros H. split; [|split].
  - simpl in H.
    apply exec_Stopped_nil in H as [-> Hes]; [|done..].
    by repeat split.
  - intros dec unm code body ce watch Hcode H409.
    unfold controller.addFooCRD, kubeapi.result, kubeapi.putOrPost. simpl.
    assert (Hneg : negb ((200 <=? code) && (code <? 300)) = true).
    { apply negb_true_iff, andb_false_iff.
      destruct Hcode; [left; by apply Z.leb_gt|right; by apply Z.ltb_ge]. }
    rewrite Hneg. unfold controller.addCRD. simpl.
    by apply Z.eqb_neq in H409 as ->.
  - intros dec unm post watch skipped res rest e Hpost Hwatch Hskip Herr.
    unfold controller.addFooCRD, controller.addCRD. rewrite Hwatch.
    destruct Hpost as [-> | ->]; simpl; by apply waitEstablished_error.
Qed.

Lemma startAux_error_reported_once_witness :
  controller.exec alwaysCreated controller.NewController
    [controller.EvStart (controller.Done (Some (RequestError 404 "dummy")));
     controller.EvRequestStop]
  = Some stoppedOn404
  /\ controller.Errors (controller.world stoppedOn404)
     = [Errorf_w "Could not add CRD: " (RequestError 404 "dummy")].
Proof.
  split; [reflexivity|].
  exact (proj1 (proj2 (proj1
    (startAux_error_reported_once alwaysCreated (RequestError 404 "dummy")
       [controller.EvRequestStop] stoppedOn404 eq_refl)))).
Defined.

(** C6 as stated fails for an error of the registration itself that is not
    a [RequestError]: the transport fails on the POST, [addCRD] goes on to
    the watch, the watch reports the definition established, and the
    controller is running with both watches opened and nothing reported. *)
Lemma registration_transport_error_not_reported :
  let post := {| kubeapi.marshalErr := None;
                 kubeapi.roundTrip :=
                   kubeapi.TransportError (errorString "connection reset by peer");
                 kubeapi.closeErr := None |} in
  kubeapi.result post = Some (errorString "connection reset by peer") /\
  controller.startAux
    (controller.addFooCRD exampleDecoder exampleUnmarshalCRD post
       (kubeapi.Response 200 "a"))
    controller.NewController = runningController.
Proof. split; reflexivity. Qed.

(** ** The synchronization pass *)

Section synchronize_facts.

Import kubeapi controller.

Variable transport :
  list (Request appsv1.Deployment) -> Request appsv1.Deployment -> Answer.

Ltac item_cases :=
  unfold synchronizeItem, call in *; repeat case_match; simplify_eq/=;
  repeat match goal with
    | H : negb _ = false |- _ => apply negb_false_iff in H
    | H : negb _ = true |- _ => apply negb_true_iff in H
    | H : (_ =? _) = true |- _ => apply Z.eqb_eq in H
    end; simplify_eq/=.

(** One item changes nothing of the status but [todo], from which it can
    only take the item itself; of the world it changes only the calls and
    the log, and both only grow. *)
Lemma synchronizeItem_frame item st w r st' w' :
  synchronizeItem transport item st w = (r, st', w') ->
  foos st' = foos st /\ deployments st' = deployments st /\
  (todo st' = todo st \/ todo st' = todo st ∖ {[item]}) /\
  requests w `prefix_of` requests w' /\
  Errors w' = Errors w /\ ErrorsClosed w' = ErrorsClosed w /\ asked w' = asked w.
Proof.
  intros H. item_cases; repeat split; auto; try done;
    by apply prefix_app_r.
Qed.

Lemma synchronizeItem_settled item st w st' w' r :
  synchronizeItem transport item st w = (r, st', w') ->
  item ∈ todo st -> item ∉ todo st' -> settled transport st w w' item.
Proof.
  intros H Hin Hout. unfold settled. item_cases; try done.
  - right; left. eexists _, _. eauto.
  - right; right. eexists. split; [done|].
    exists (UpdateDeployment
              (withResourceVersion
                 (metav1.ObjectMeta.ResourceVersion (appsv1.ObjectMeta d))
                 (newDeployment f))), (requests w), [].
    repeat split; try done. right. eauto.
  - right; right. eexists. split; [done|].
    exists (AddDeployment (newDeployment f)), (requests w), [].
    repeat split; try done. by left.
  - by left.
Qed.

Lemma synchronizeItem_conflict item st w :
  conflict st item ->
  exists dep,
    synchronizeItem transport item st w
    = (Done None, st, Printf (notOwnedLine dep) w).
Proof.
  intros (foo & dep & Hfoo & Hdep & Hctl). exists dep.
  unfold synchronizeItem. by rewrite Hfoo, Hdep, Hctl.
Qed.

Lemma synchronizeItem_failed item st w err st' w' :
  synchronizeItem transport item st w = (Done (Some err), st', w') -> st' = st.
Proof. intros H. by item_cases. Qed.

Lemma issuedFor_mono st st1 w w1 w2 w3 foo :
  deployments st1 = deployments st ->
  requests w `prefix_of` requests w1 ->
  requests w2 `prefix_of` requests w3 ->
  issuedFor transport st1 w1 w2 foo -> issuedFor transport st w w3 foo.
Proof.
  intros Hd Hpre [more Hpost] (req & before & after & Hreq & Hb & Hres & Hshape).
  exists req, before, (after ++ more). repeat split; try done.
  - rewrite Hpost, Hreq. by rewrite <-app_assoc.
  - by etrans.
  - by rewrite <-Hd.
Qed.

Lemma settled_mono st st1 w w1 w2 w3 n :
  foos st1 = foos st -> deployments st1 = deployments st ->
  requests w `prefix_of` requests w1 ->
  requests w2 `prefix_of` requests w3 ->
  settled transport st1 w1 w2 n -> settled transport st w w3 n.
Proof.
  intros Hf Hd Hpre Hpost [H|[H|H]].
  - left. by rewrite <-Hf.
  - right; left. destruct H as (foo & dep & ? & ? & ? & ?).
    exists foo, dep. by rewrite <-Hf, <-Hd.
  - right; right. destruct H as (foo & ? & ?). exists foo.
    rewrite <-Hf. split; [done|]. by eapply issuedFor_mono.
Qed.

(** The pass as a whole. *)
Lemma synchronize_frame order st w r st' w' :
  synchronize transport order st w = (r, st', w') ->
  foos st' = foos st /\ deployments st' = deployments st /\
  todo st' ⊆ todo st /\
  (forall n, n ∈ todo st -> n ∉ order -> n ∈ todo st') /\
  requests w `prefix_of` requests w' /\
  Errors w' = Errors w /\ ErrorsClosed w' = ErrorsClosed w /\ asked w' = asked w.
Proof.
  revert st w. induction order as [|item order IH]; intros st w; simpl.
  - intros [= <- <- <-]. repeat split; auto; done.
  - destruct (synchronizeItem transport item st w) as [[r1 st1] w1] eqn:Hitem.
    apply synchronizeItem_frame in Hitem
      as (Hf & Hd & Ht & Hr & He & Hc & Ha).
    assert (Hsub : todo st1 ⊆ todo st) by (destruct Ht as [-> | ->]; set_solver).
    assert (Hkeep : forall n, n ∈ todo st -> n ≠ item -> n ∈ todo st1)
      by (destruct Ht as [-> | ->]; set_solver).
    destruct r1 as [[err|]|].
    + intros [= <- <- <-]. repeat split; auto.
      intros n Hn Hni. apply Hkeep; [done|]. set_solver.
    + intros H. apply IH in H as (Hf' & Hd' & Ht' & Hk' & Hr' & He' & Hc' & Ha').
      repeat split; try congruence; [set_solver| |by etrans].
      intros n Hn Hni. apply Hk'; [|set_solver]. apply Hkeep; [done|set_solver].
    + intros [= <- <- <-]. repeat split; auto.
      intros n Hn Hni. apply Hkeep; [done|]. set_solver.
Qed.

Lemma synchronize_settled order st w r st' w' n :
  synchronize transport order st w = (r, st', w') ->
  n ∈ todo st -> n ∉ todo st' -> settled transport st w w' n.
Proof.
  revert st w. induction order as [|item order IH]; intros st w; simpl.
  - intros [= <- <- <-]. done.
  - destruct (synchronizeItem transport item st w) as [[r1 st1] w1] eqn:Hitem.
    pose proof (synchronizeItem_frame _ _ _ _ _ _ Hitem)
      as (Hf & Hd & Ht & Hr & _).
    intros Hsync Hin Hout.
    assert (Hrest : requests w1 `prefix_of` requests w' /\
                    (n ∈ todo st1 -> settled transport st1 w1 w' n)).
    { destruct r1 as [[err|]|].
      - injection Hsync as <- <- <-. by split.
      - split; [|by eauto].
        by apply synchronize_frame in Hsync as (_ & _ & _ & _ & ? & _).
      - injection Hsync as <- <- <-. by split. }
    destruct Hrest as [Hr' Hset].
    destruct (decide (n ∈ todo st1)) as [Hn1|Hn1].
    + eapply settled_mono; [done|done|exact Hr|reflexivity|]. by apply Hset.
    + assert (Heq : n = item).
      { destruct (decide (n = item)) as [|Hne]; [done|exfalso].
        destruct Ht as [Ht | Ht]; rewrite Ht in Hn1; set_solver. }
      subst n.
      eapply settled_mono; [reflexivity|reflexivity|reflexivity|exact Hr'|].
      by eapply synchronizeItem_settled.
Qed.

Lemma synchronize_conflict order st w r st' w' n :
  synchronize transport order st w = (r, st', w') ->
  conflict st n -> n ∈ todo st -> n ∈ todo st'.
Proof.
  revert st w. induction order as [|item order IH]; intros st w; simpl.
  - by intros [= <- <- <-].
  - destruct (synchronizeItem transport item st w) as [[r1 st1] w1] eqn:Hitem.
    pose proof (synchronizeItem_frame _ _ _ _ _ _ Hitem)
      as (Hf & Hd & Ht & _).
    intros Hsync Hc Hin.
    assert (Hn1 : n ∈ todo st1).
    { destruct (decide (n = item)) as [->|Hne].
      - destruct (synchronizeItem_conflict item st w Hc) as [dep Heq].
        rewrite Heq in Hitem. by injection Hitem as <- <- <-.
      - destruct Ht as [-> | ->]; set_solver. }
    assert (Hc1 : conflict st1 n).
    { destruct Hc as (foo & dep & ? & ? & ?). exists foo, dep.
      by rewrite Hf, Hd. }
    destruct r1 as [[err|]|]; [by injection Hsync as <- <- <-|by eauto|
                                by injection Hsync as <- <- <-].
Qed.

(** A pass that fails was cut at the failing name: the status is the one
    that the names before it left, and the failing name was not removed. *)
Lemma synchronize_failed order st w err st' w' :
  synchronize transport order st w = (Done (Some err), st', w') ->
  exists pre item post w1,
    order = pre ++ item :: post /\
    synchronize transport pre st w = (Done None, st', w1) /\
    synchronizeItem transport item st' w1 = (Done (Some err), st', w').
Proof.
  revert st w. induction order as [|item order IH]; intros st w; simpl; [done|].
  destruct (synchronizeItem transport item st w) as [[r1 st1] w1] eqn:Hitem.
  destruct r1 as [[e|]|]; [| |done].
  - intros [= -> <- <-].
    pose proof (synchronizeItem_failed _ _ _ _ _ _ Hitem) as ->.
    exists [], item, order, w. by repeat split.
  - intros H. destruct (IH _ _ H) as (pre & it & post & w2 & -> & Hpre & Hit).
    exists (item :: pre), it, post, w2. repeat split; [|done].
    simpl. by rewrite Hitem.
Qed.

(** No panic when every observed deployment has a replica count. *)
Lemma synchronizeItem_no_panic item st w :
  (forall name dep, deployments st !! name = Some dep ->
                    appsv1.Replicas (appsv1.Spec dep) <> None) ->
  (synchronizeItem transport item st w).1.1 <> Panic.
Proof.
  intros Hrep. unfold synchronizeItem, call.
  repeat case_match; simplify_eq/=; try done.
  intros _. by eapply Hrep.
Qed.

Lemma synchronize_no_panic order st w :
  (forall name dep, deployments st !! name = Some dep ->
                    appsv1.Replicas (appsv1.Spec dep) <> None) ->
  (synchronize transport order st w).1.1 <> Panic.
Proof.
  revert st w. induction order as [|item order IH]; intros st w Hrep; simpl; [done|].
  pose proof (synchronizeItem_no_panic item st w Hrep) as Hno.
  destruct (synchronizeItem transport item st w) as [[r1 st1] w1] eqn:Hitem.
  apply synchronizeItem_frame in Hitem as (_ & Hd & _).
  destruct r1 as [[e|]|]; simpl in *; [done| |done].
  apply IH. by rewrite Hd.
Qed.

End synchronize_facts.

(** ** The select loop *)

Lemma addTODO_firstOwner refs st w :
  controller.addTODO refs st w =
  match firstOwner refs with
  | Some n =>
      (controller.setTodo (controller.todo st ∪ {[n]}) st, controller.AskTick w)
  | None => (st, w)
  end.
Proof.
  unfold firstOwner. induction refs as [|o refs IH]; simpl; [done|].
  by case_bool_decide.
Qed.

Lemma addTODO_dep dep st w :
  controller.addTODO
    (metav1.ObjectMeta.OwnerReferences (appsv1.ObjectMeta dep)) st w =
  (controller.setTodo (controller.todo st ∪ marked dep) st,
   {| controller.requests := controller.requests w;
      controller.logged := controller.logged w;
      controller.asked := (controller.asked w + ticksAsked dep)%nat;
      controller.Errors := controller.Errors w;
      controller.ErrorsClosed := controller.ErrorsClosed w |}).
Proof.
  rewrite addTODO_firstOwner. unfold marked, ticksAsked.
  destruct (firstOwner _); unfold controller.AskTick, controller.setTodo; simpl.
  - do 2 f_equal. lia.
  - destruct st, w; simpl. f_equal; [f_equal; set_solver|f_equal; lia].
Qed.

Section loop_facts.

Import kubeapi controller.

Variable transport :
  list (Request appsv1.Deployment) -> Request appsv1.Deployment -> Answer.

(** What one iteration of the loop can do. *)
Lemma iteration_facts l i w n w' :
  iteration transport l i w = (n, w') ->
  ((forall order, i <> Tick order) -> requests w' = requests w) /\
  match n with
  | Continue l' =>
      Errors w' = Errors w /\ ErrorsClosed w' = ErrorsClosed w /\
      (deploymentsCh l' = true \/ foosCh l' = true) /\
      (deploymentsCh l' = true ->
       deploymentsCh l = true /\ i <> FromDeployments Closed) /\
      (foosCh l' = true -> foosCh l = true /\ i <> FromFoos Closed) /\
      ((forall order, i <> Tick order) -> todo (status l) ⊆ todo (status l'))
  | Return =>
      ErrorsClosed w' = true /\
      (Errors w' = Errors w \/ exists e, Errors w' = Errors w ++ [e])
  | Crash => True
  end.
Proof.
  unfold iteration, bothClosed.
  destruct i as [r|r|order].
  - destruct r as [|ev]; simpl.
    + destruct (foosCh l) eqn:Hf; simpl; intros [= <- <-]; simpl.
      * split; [done|]. repeat split; auto; try done.
      * split; [done|]. split; [done|]. by left.
    + destruct (Err ev) as [err|]; [intros [= <- <-]; simpl; split; [done|]; split; [done|]; eauto|].
      destruct (Item ev) as [d|]; [|intros [= <- <-]; by split].
      rewrite !addTODO_dep.
      destruct (deployments (status l) !! depName d) as [old|];
        rewrite ?addTODO_dep; simpl;
        destruct (deploymentsCh l) eqn:Hd, (foosCh l) eqn:Hf; simpl;
        intros [= <- <-]; simpl; (split; [done|]);
        repeat split; auto; try done; try (destruct (IsDelete ev); simpl; set_solver).
  - destruct r as [|ev]; simpl.
    + destruct (deploymentsCh l) eqn:Hd; simpl; intros [= <- <-]; simpl.
      * split; [done|]. repeat split; auto; try done.
      * split; [done|]. split; [done|]. by left.
    + destruct (Err ev) as [err|]; [intros [= <- <-]; simpl; split; [done|]; split; [done|]; eauto|].
      destruct (Item ev) as [f|]; [|intros [= <- <-]; by split].
      destruct (deploymentsCh l) eqn:Hd, (foosCh l) eqn:Hf; simpl;
        intros [= <- <-]; simpl; (split; [done|]);
        repeat split; auto; try done; try (destruct (IsDelete ev); simpl; set_solver).
  - destruct (synchronize transport order (status l) w) as [[r st'] w1] eqn:Hsync.
    apply synchronize_frame in Hsync as (_ & _ & _ & _ & _ & He & Hc & _).
    destruct r as [[err|]|];
      destruct (deploymentsCh l) eqn:Hd, (foosCh l) eqn:Hf; simpl;
      intros [= <- <-]; simpl;
      (split; [intros Hno; by destruct (Hno order)|]);
      repeat split; auto; try done; try (by left);
      try (intros Hno; by destruct (Hno order)).
Qed.

Lemma wellStarted_new : wellStarted NewController.
Proof. done. Qed.

Lemma wellStarted_next c e c' :
  wellStarted c -> next transport c e = Some c' -> wellStarted c'.
Proof.
  unfold wellStarted, next. intros Hc.
  destruct e as [crd| |i], (phase c) as [|l| |] eqn:Hp; try done.
  - intros [= <-]. destruct crd as [[err|]|]; simpl; rewrite ?Hc; simpl; auto.
  - intros [= <-]. unfold RequestStop.
    destruct (stopFoos c), (stopDeployments c); simpl; rewrite ?Hp; done.
  - intros [= <-]. unfold RequestStop.
    destruct (stopFoos c), (stopDeployments c); simpl; rewrite ?Hp; done.
  - intros [= <-]. unfold RequestStop.
    destruct (stopFoos c), (stopDeployments c); simpl; rewrite ?Hp; done.
  - destruct (enabled l i); [|done].
    destruct (iteration transport l i (world c)) as [n w'] eqn:Hit.
    intros [= <-]. simpl.
    apply iteration_facts in Hit as [_ Hit].
    destruct Hc as (He & Hcl & Hch).
    destruct n as [l'| |]; simpl.
    + by destruct Hit as (-> & -> & ? & _).
    + destruct Hit as [? [Hw|[e Hw]]]; (split; [done|]);
        rewrite Hw, He; simpl; lia.
    + done.
Qed.

Lemma wellStarted_exec c es c' :
  wellStarted c -> exec transport c es = Some c' -> wellStarted c'.
Proof.
  revert c. induction es as [|e es IH]; intros c Hc; simpl; [by intros [= <-]|].
  destruct (next transport c e) as [c1|] eqn:Hn; [|done].
  apply IH. by eapply wellStarted_next.
Qed.

(** Once the loop has been entered, the phase never goes back to
    [Starting], and a channel variable of the loop that is still open was
    open before and has not reported closed. *)
Lemma next_Running c e c' l' :
  phase c <> Starting -> next transport c e = Some c' -> phase c' = Running l' ->
  exists l, phase c = Running l /\
    (deploymentsCh l' = true ->
     deploymentsCh l = true /\ e <> EvSelect (FromDeployments Closed)) /\
    (foosCh l' = true -> foosCh l = true /\ e <> EvSelect (FromFoos Closed)).
Proof.
  unfold next. intros Hs.
  destruct e as [crd| |i], (phase c) as [|l| |] eqn:Hp; try done.
  - intros [= <-]. unfold RequestStop.
    destruct (stopFoos c), (stopDeployments c); simpl; rewrite ?Hp; try done;
      intros [= <-]; (eexists; split; [done|]; split; intros ?; split; done).
  - intros [= <-]. unfold RequestStop.
    destruct (stopFoos c), (stopDeployments c); simpl; rewrite ?Hp; done.
  - destruct (enabled l i); [|done].
    destruct (iteration transport l i (world c)) as [n w'] eqn:Hit.
    intros [= <-]. simpl. destruct n as [l1| |]; try done. intros [= ->].
    apply iteration_facts in Hit as (_ & _ & _ & _ & Hd & Hf & _).
    exists l. split; [done|]. split; intros H.
    + destruct (Hd H). split; [done|]. congruence.
    + destruct (Hf H). split; [done|]. congruence.
Qed.

Lemma next_started c e c' :
  phase c <> Starting -> next transport c e = Some c' -> phase c' <> Starting.
Proof.
  unfold next. intros Hs.
  destruct e as [crd| |i], (phase c) as [|l| |] eqn:Hp; try done.
  - intros [= <-]. unfold RequestStop.
    destruct (stopFoos c), (stopDeployments c); simpl; rewrite ?Hp; done.
  - intros [= <-]. unfold RequestStop.
    destruct (stopFoos c), (stopDeployments c); simpl; rewrite ?Hp; done.
  - destruct (enabled l i); [|done].
    destruct (iteration transport l i (world c)) as [n w'].
    intros [= <-]. simpl. by destruct n.
Qed.

Lemma exec_snoc c es e c' :
  exec transport c (es ++ [e]) = Some c' ->
  exists c1, exec transport c es = Some c1 /\ next transport c1 e = Some c'.
Proof.
  revert c. induction es as [|e' es IH]; intros c; simpl.
  - destruct (next transport c e) eqn:Hn; [|done]. intros [= <-]. eauto.
  - destruct (next transport c e'); [|done]. apply IH.
Qed.

Lemma exec_started c es c' :
  phase c <> Starting -> exec transport c es = Some c' -> phase c' <> Starting.
Proof.
  revert c. induction es as [|e es IH]; intros c Hs; simpl.
  - by intros [= <-].
  - destruct (next transport c e) eqn:Hn; [|done].
    apply IH. by eapply next_started.
Qed.

Lemma exec_Running c es c' l' :
  phase c <> Starting -> exec transport c es = Some c' -> phase c' = Running l' ->
  (deploymentsCh l' = true -> EvSelect (FromDeployments Closed) ∉ es) /\
  (foosCh l' = true -> EvSelect (FromFoos Closed) ∉ es).
Proof.
  revert c c' l'. induction es as [|e es IH] using rev_ind; intros c c' l' Hs.
  - intros _ _. split; intros _ ?%elem_of_nil; done.
  - intros (c1 & Hex1 & Hn)%exec_snoc Hp.
    pose proof (exec_started _ _ _ Hs Hex1) as Hs1.
    destruct (next_Running _ _ _ _ Hs1 Hn Hp) as (l1 & Hp1 & Hd & Hf).
    destruct (IH _ _ _ Hs Hex1 Hp1) as [IHd IHf].
    split; intros H; rewrite elem_of_app, list_elem_of_singleton.
    + destruct (Hd H) as [H1 H2]. intros [?|?]; [by apply IHd|done].
    + destruct (Hf H) as [H1 H2]. intros [?|?]; [by apply IHf|done].
Qed.

(** What a tick does, in terms of the pass it runs. *)
Lemma iteration_Tick st d f order w r st' w' :
  synchronize transport order st w = (r, st', w') ->
  iteration transport {| status := st; deploymentsCh := d; foosCh := f |}
    (Tick order) w
  = match r with
    | Done None =>
        bothClosed {| status := st'; deploymentsCh := d; foosCh := f |} w'
    | Done (Some err) =>
        bothClosed {| status := st'; deploymentsCh := d; foosCh := f |}
          (AskTick (Printf ("Synchronize failed, will retry: " +:+ Error err) w'))
    | Panic => (Crash, closeErrors w')
    end.
Proof.
  intros Hsync. unfold iteration. cbn [status deploymentsCh foosCh].
  rewrite Hsync. by destruct r as [[err|]|].
Qed.

(** The step of the loop takes a name out of the dirty set only on a tick,
    and only when the name is settled. *)
Lemma iteration_removed l i w l' w' n :
  iteration transport l i w = (Continue l', w') ->
  n ∈ todo (status l) -> n ∉ todo (status l') ->
  exists order, i = Tick order /\ settled transport (status l) w w' n.
Proof.
  intros Hit Hin Hout. destruct i as [r|r|order].
  - apply iteration_facts in Hit as (_ & _ & _ & _ & _ & _ & Hsub).
    destruct Hout. by apply Hsub.
  - apply iteration_facts in Hit as (_ & _ & _ & _ & _ & _ & Hsub).
    destruct Hout. by apply Hsub.
  - exists order. split; [done|].
    destruct l as [st d f]. cbn [status] in *.
    destruct (synchronize transport order st w) as [[r st'] w1] eqn:Hsync.
    rewrite (iteration_Tick _ _ _ _ _ _ _ _ Hsync) in Hit.
    unfold bothClosed in Hit. cbn [deploymentsCh foosCh] in Hit.
    destruct r as [[err|]|].
    + destruct (negb d && negb f); [discriminate Hit|].
      injection Hit as <- <-. cbn [status] in Hout.
      eapply (settled_mono transport st st w w w1);
        [reflexivity|reflexivity|reflexivity|simpl; reflexivity|].
      by eapply synchronize_settled.
    + destruct (negb d && negb f); [discriminate Hit|].
      injection Hit as <- <-. cbn [status] in Hout.
      by eapply synchronize_settled.
    + discriminate Hit.
Qed.

(** A name in ownership conflict stays dirty through every step. *)
Lemma iteration_conflict l i w l' w' n :
  iteration transport l i w = (Continue l', w') ->
  conflict (status l) n -> n ∈ todo (status l) -> n ∈ todo (status l').
Proof.
  intros Hit Hc Hin. destruct i as [r|r|order].
  - apply iteration_facts in Hit as (_ & _ & _ & _ & _ & _ & Hsub). by apply Hsub.
  - apply iteration_facts in Hit as (_ & _ & _ & _ & _ & _ & Hsub). by apply Hsub.
  - destruct l as [st d f]. cbn [status] in *.
    destruct (synchronize transport order st w) as [[r st'] w1] eqn:Hsync.
    rewrite (iteration_Tick _ _ _ _ _ _ _ _ Hsync) in Hit.
    unfold bothClosed in Hit. cbn [deploymentsCh foosCh] in Hit.
    destruct r as [[err|]|]; [| |discriminate Hit];
      (destruct (negb d && negb f); [discriminate Hit|]);
      injection Hit as <- <-; cbn [status]; by eapply synchronize_conflict.
Qed.

(** Only a tick issues calls. *)
Lemma exec_no_tick c es c' :
  (forall order, EvSelect (Tick order) ∉ es) ->
  exec transport c es = Some c' -> requests (world c') = requests (world c).
Proof.
  revert c. induction es as [|e es IH]; intros c Hno; simpl; [by intros [= <-]|].
  destruct (next transport c e) as [c1|] eqn:Hn; [|done].
  intros Hex. rewrite (IH c1); [|intros order Hin; apply (Hno order); by right|done].
  clear IH Hex. unfold next in Hn.
  destruct e as [crd| |i], (phase c) as [|l| |] eqn:Hp; try done.
  - injection Hn as <-. by destruct crd as [[err|]|].
  - injection Hn as <-. unfold RequestStop.
    by destruct (stopFoos c), (stopDeployments c).
  - injection Hn as <-. unfold RequestStop.
    by destruct (stopFoos c), (stopDeployments c).
  - injection Hn as <-. unfold RequestStop.
    by destruct (stopFoos c), (stopDeployments c).
  - destruct (enabled l i); [|done].
    destruct (iteration transport l i (world c)) as [n w'] eqn:Hit.
    injection Hn as <-. simpl.
    apply iteration_facts in Hit as [Hr _]. apply Hr.
    intros order ->. apply (Hno order). by left.
Qed.

End loop_facts.

(** ** Fatal errors of the watch streams *)

(** C1, as the code has it.  In every state the running controller
    reaches, an event with an error on a watch stream that the loop still
    reads makes the loop send that one error, prefixed with the name of the
    stream, close the error output and return.  It returns at once: the
    other stream is not read any further, and the stop channels of the two
    watches are left as they were. *)
Theorem fatal_watch_error_stops_loop
    (transport : list (kubeapi.Request appsv1.Deployment) ->
                 kubeapi.Request appsv1.Deployment -> kubeapi.Answer)
    (es : list controller.Event) (c : controller.Controller)
    (l : controller.Loop) (err : error) :
  controller.exec transport controller.NewController es = Some c ->
  controller.phase c = controller.Running l ->
  (forall ev : kubeapi.WatchEvent appsv1.Deployment,
     kubeapi.Err ev = Some err -> controller.deploymentsCh l = true ->
     exists c',
       controller.next transport c
         (controller.EvSelect (controller.FromDeployments (controller.Msg ev)))
       = Some c' /\
       stoppedBy transport c c' (Errorf_w "Reading deployments: " err)) /\
  (forall ev : kubeapi.WatchEvent controller.Foo,
     kubeapi.Err ev = Some err -> controller.foosCh l = true ->
     exists c',
       controller.next transport c
         (controller.EvSelect (controller.FromFoos (controller.Msg ev)))
       = Some c' /\
       stoppedBy transport c c' (Errorf_w "Reading Foos: " err)).
Proof.
  intros Hex Hp.
  pose proof (wellStarted_exec transport _ _ _ wellStarted_new Hex) as Hw.
  unfold wellStarted in Hw. rewrite Hp in Hw. destruct Hw as (He & _ & _).
  split; intros ev Herr Hch; unfold controller.next; rewrite Hp; simpl;
    rewrite Hch; simpl; rewrite Herr; (eexists; split; [reflexivity|]);
    unfold stoppedBy; simpl; rewrite He; by repeat split.
Qed.

Lemma fatal_watch_error_stops_loop_witness :
  controller.exec alwaysCreated controller.NewController
    [controller.EvStart (controller.Done None)] = Some runningController
  /\ exists c',
       controller.next alwaysCreated runningController
         (controller.EvSelect
            (controller.FromFoos
               (controller.Msg (kubeapi.errEvent (errorString "decode failed")))))
       = Some c' /\
       stoppedBy alwaysCreated runningController c'
         (Errorf_w "Reading Foos: " (errorString "decode failed")).
Proof.
  split; [reflexivity|].
  apply (proj2 (fatal_watch_error_stops_loop alwaysCreated
                  [controller.EvStart (controller.Done None)] runningController
                  controller.newLoop (errorString "decode failed")
                  eq_refl eq_refl)
           (kubeapi.errEvent (errorString "decode failed")) eq_refl eq_refl).
Defined.

(** C1 as stated fails: after a fatal error on the stream of the managed
    resources the controller is stopped, and neither watch was cancelled. *)
Lemma fatal_error_leaves_watches_open :
  exists c',
    controller.exec alwaysCreated controller.NewController
      [controller.EvStart (controller.Done None);
       controller.EvSelect
         (controller.FromFoos
            (controller.Msg (kubeapi.errEvent (errorString "decode failed"))))]
    = Some c' /\
    controller.phase c' = controller.Stopped /\
    controller.stopFoos c' = controller.chanOpen /\
    controller.stopDeployments c' = controller.chanOpen.
Proof. eexists. split; [reflexivity|]. by repeat split. Qed.

(** ** Deployment events *)

(** C3, as the code has it.  A deployment event, upsert or delete, on a
    running loop stores or removes the deployment, and marks dirty the name
    of the first owner reference of kind Foo of the new snapshot and, when a
    deployment of that name was observed before, the first one of the
    previous snapshot; each mark asks for one tick.  Nothing else changes. *)
Theorem deployment_event_marks_first_owner
    (transport : list (kubeapi.Request appsv1.Deployment) ->
                 kubeapi.Request appsv1.Deployment -> kubeapi.Answer)
    (c : controller.Controller) (l : controller.Loop)
    (isDelete : bool) (d : appsv1.Deployment) :
  controller.phase c = controller.Running l ->
  controller.deploymentsCh l = true ->
  exists c' l',
    controller.next transport c
      (controller.EvSelect
         (controller.FromDeployments (controller.Msg (kubeapi.itemEvent isDelete d))))
    = Some c' /\
    controller.phase c' = controller.Running l' /\
    controller.todo (controller.status l')
    = controller.todo (controller.status l) ∪ marked d ∪
      match controller.deployments (controller.status l) !! controller.depName d with
      | Some old => marked old
      | None => ∅
      end /\
    controller.asked (controller.world c')
    = (controller.asked (controller.world c) + ticksAsked d +
       match controller.deployments (controller.status l) !! controller.depName d with
       | Some old => ticksAsked old
       | None => 0
       end)%nat /\
    controller.deployments (controller.status l')
    = (if isDelete
       then delete (controller.depName d) (controller.deployments (controller.status l))
       else <[controller.depName d := d]>
              (controller.deployments (controller.status l))) /\
    controller.foos (controller.status l') = controller.foos (controller.status l) /\
    controller.requests (controller.world c')
    = controller.requests (controller.world c).
Proof.
  intros Hp Hch. unfold controller.next. rewrite Hp. simpl. rewrite Hch.
  unfold controller.iteration, controller.bothClosed. simpl.
  rewrite !addTODO_dep.
  destruct (controller.deployments (controller.status l) !! controller.depName d)
    as [old|]; rewrite ?addTODO_dep; simpl; rewrite ?Hch; simpl;
    (eexists _, _; split; [reflexivity|]; simpl; split; [reflexivity|]);
    destruct isDelete; simpl; repeat split; try done; try lia; set_solver.
Qed.

Lemma deployment_event_marks_first_owner_witness :
  controller.phase runningController = controller.Running controller.newLoop /\
  exists c' l',
    controller.next alwaysCreated runningController
      (controller.EvSelect
         (controller.FromDeployments
            (controller.Msg (kubeapi.itemEvent false twoOwners))))
    = Some c' /\
    controller.phase c' = controller.Running l' /\
    controller.todo (controller.status l') = ∅ ∪ marked twoOwners ∪ ∅.
Proof.
  split; [reflexivity|].
  destruct (deployment_event_marks_first_owner alwaysCreated runningController
              controller.newLoop false twoOwners eq_refl eq_refl)
    as (c' & l' & H1 & H2 & H3 & _).
  exists c', l'. split; [exact H1|]. split; [exact H2|exact H3].
Defined.

(** C3 as stated fails: of two owner references of kind Foo only the
    first is marked. *)
Lemma second_owner_not_marked :
  exists c' l',
    controller.next alwaysCreated runningController
      (controller.EvSelect
         (controller.FromDeployments
            (controller.Msg (kubeapi.itemEvent false twoOwners))))
    = Some c' /\
    controller.phase c' = controller.Running l' /\
    "a" ∈ controller.todo (controller.status l') /\
    "b" ∉ controller.todo (controller.status l').
Proof.
  eexists _, _. split; [reflexivity|]. split; [reflexivity|].
  simpl. split; set_solver.
Qed.

(** ** Stopping *)

(** C5, as the code has it.  [RequestStop] closes the two stop channels
    and nothing else: the loop is where it was.  From then on events other
    than ticks issue no call; a tick that fires before both streams have
    reported closed still runs a pass.  Once both streams have reported
    closed the loop has returned, with the error output closed and the
    select dead, unless the program has panicked on the way. *)
Theorem RequestStop_then_drain
    (transport : list (kubeapi.Request appsv1.Deployment) ->
                 kubeapi.Request appsv1.Deployment -> kubeapi.Answer)
    (es0 es : list controller.Event) (c c' : controller.Controller)
    (l : controller.Loop) :
  controller.exec transport controller.NewController es0 = Some c ->
  controller.phase c = controller.Running l ->
  controller.stopFoos c = controller.chanOpen ->
  controller.stopDeployments c = controller.chanOpen ->
  controller.exec transport (controller.RequestStop c) es = Some c' ->
  controller.RequestStop c
  = {| controller.stopFoos := controller.chanClosed;
       controller.stopDeployments := controller.chanClosed;
       controller.phase := controller.Running l;
       controller.world := controller.world c |} /\
  ((forall order, controller.EvSelect (controller.Tick order) ∉ es) ->
   controller.requests (controller.world c')
   = controller.requests (controller.world c)) /\
  (controller.EvSelect (controller.FromDeployments controller.Closed) ∈ es ->
   controller.EvSelect (controller.FromFoos controller.Closed) ∈ es ->
   (controller.phase c' = controller.Stopped /\
    controller.ErrorsClosed (controller.world c') = true /\
    forall i, controller.next transport c' (controller.EvSelect i) = None) \/
   controller.phase c' = controller.Panicked).
Proof.
  intros Hex0 Hp Hsf Hsd Hex.
  assert (Hstop : controller.RequestStop c
    = {| controller.stopFoos := controller.chanClosed;
         controller.stopDeployments := controller.chanClosed;
         controller.phase := controller.Running l;
         controller.world := controller.world c |}).
  { unfold controller.RequestStop. by rewrite Hsf, Hsd, Hp. }
  split; [done|]. split.
  - intros Hno. rewrite (exec_no_tick transport _ _ _ Hno Hex).
    by rewrite Hstop.
  - intros Hd Hf.
    pose proof (wellStarted_exec transport _ _ _ wellStarted_new Hex0) as Hw.
    assert (Hw1 : wellStarted (controller.RequestStop c)).
    { rewrite Hstop. unfold wellStarted in *. simpl. by rewrite Hp in Hw. }
    pose proof (wellStarted_exec transport _ _ _ Hw1 Hex) as Hw'.
    assert (Hs : controller.phase (controller.RequestStop c) <> controller.Starting)
      by (by rewrite Hstop).
    pose proof (exec_started transport _ _ _ Hs Hex) as Hs'.
    unfold wellStarted in Hw'.
    destruct (controller.phase c') as [|l'| |] eqn:Hp'; [done| |left|by right].
    + exfalso. destruct Hw' as (_ & _ & Hopen).
      destruct (exec_Running transport _ _ _ _ Hs Hex Hp') as [Hdn Hfn].
      destruct Hopen as [H|H]; [by apply Hdn|by apply Hfn].
    + destruct Hw' as [Hcl _]. split; [done|]. split; [done|].
      intros i. unfold controller.next. by rewrite Hp'.
Qed.

Lemma RequestStop_then_drain_witness :
  controller.exec alwaysCreated controller.NewController
    [controller.EvStart (controller.Done None)] = Some runningController
  /\ controller.exec alwaysCreated (controller.RequestStop runningController)
       [controller.EvSelect (controller.FromDeployments controller.Closed);
        controller.EvSelect (controller.FromFoos controller.Closed)]
     = Some stoppedController
  /\ controller.RequestStop runningController = drainingController.
Proof.
  split; [reflexivity|]. split; [reflexivity|].
  exact (proj1 (RequestStop_then_drain alwaysCreated
                  [controller.EvStart (controller.Done None)]
                  [controller.EvSelect (controller.FromDeployments controller.Closed);
                   controller.EvSelect (controller.FromFoos controller.Closed)]
                  runningController stoppedController controller.newLoop
                  eq_refl eq_refl eq_refl eq_refl eq_refl)).
Defined.

(** C5 as stated fails: a managed resource arrives, the host requests the
    stop, and the tick that fires before the streams report closed makes the
    loop issue the create call. *)
Lemma create_after_RequestStop :
  exists c1 c2,
    controller.exec alwaysCreated controller.NewController
      [controller.EvStart (controller.Done None);
       controller.EvSelect
         (controller.FromFoos (controller.Msg (kubeapi.itemEvent false exampleFoo)));
       controller.EvRequestStop] = Some c1 /\
    controller.stopFoos c1 = controller.chanClosed /\
    controller.stopDeployments c1 = controller.chanClosed /\
    controller.requests (controller.world c1) = [] /\
    controller.next alwaysCreated c1 (controller.EvSelect (controller.Tick ["abc"]))
    = Some c2 /\
    controller.requests (controller.world c2)
    = [kubeapi.AddDeployment (controller.newDeployment exampleFoo)].
Proof.
  eexists _, _. split; [reflexivity|]. split; [reflexivity|].
  split; [reflexivity|]. split; [reflexivity|]. split; [vm_compute; reflexivity|].
  vm_compute. reflexivity.
Qed.

(** ** Ownership *)

(** C4, as the code has it.  When the desired entry of a name exists, the
    deployment it names is observed, and [IsControlledBy] denies the
    ownership (the deployment has no owner reference with the controlling
    flag set, or the first such reference carries another unique id), the
    pass issues no call for the name, logs the warning, and leaves the name
    in the dirty set, whatever else the pass does. *)
Theorem not_controlled_deployment_is_left_alone
    (transport : list (kubeapi.Request appsv1.Deployment) ->
                 kubeapi.Request appsv1.Deployment -> kubeapi.Answer)
    (item : string) (st : controller.controllerStatus) (w : controller.World)
    (foo : controller.Foo) (dep : appsv1.Deployment) :
  controller.foos st !! item = Some foo ->
  controller.deployments st !! controller.DeploymentName (controller.Spec foo)
    = Some dep ->
  metav1.IsControlledBy (appsv1.ObjectMeta dep) (controller.ObjectMeta foo) = false ->
  controller.synchronizeItem transport item st w
  = (controller.Done None, st, controller.Printf (controller.notOwnedLine dep) w) /\
  controller.requests (controller.Printf (controller.notOwnedLine dep) w)
  = controller.requests w /\
  (forall order r st' w',
     controller.synchronize transport order st w = (r, st', w') ->
     item ∈ controller.todo st -> item ∈ controller.todo st') /\
  (metav1.GetControllerOfNoCopy
     (metav1.ObjectMeta.OwnerReferences (appsv1.ObjectMeta dep)) = None \/
   exists ref,
     metav1.GetControllerOfNoCopy
       (metav1.ObjectMeta.OwnerReferences (appsv1.ObjectMeta dep)) = Some ref /\
     metav1.OwnerReference.UID ref
     <> metav1.ObjectMeta.UID (controller.ObjectMeta foo)).
Proof.
  intros Hfoo Hdep Hctl.
  assert (Hc : conflict st item) by (exists foo, dep; done).
  split; [|split; [done|split]].
  - unfold controller.synchronizeItem. by rewrite Hfoo, Hdep, Hctl.
  - intros order r st' w' Hsync Hin. by eapply synchronize_conflict.
  - unfold metav1.IsControlledBy in Hctl.
    destruct (metav1.GetControllerOfNoCopy _) as [ref|]; [right|by left].
    exists ref. split; [done|]. by apply bool_decide_eq_false in Hctl.
Qed.

Lemma not_controlled_deployment_is_left_alone_witness :
  metav1.IsControlledBy (appsv1.ObjectMeta twoOwners)
    (controller.ObjectMeta exampleFoo) = false /\
  controller.synchronizeItem alwaysCreated "abc" (observing twoOwners)
    controller.newWorld
  = (controller.Done None, observing twoOwners,
     controller.Printf (controller.notOwnedLine twoOwners) controller.newWorld).
Proof.
  split; [reflexivity|].
  exact (proj1 (not_controlled_deployment_is_left_alone alwaysCreated "abc"
                  (observing twoOwners) controller.newWorld exampleFoo twoOwners
                  eq_refl eq_refl eq_refl)).
Defined.

(** C4 as stated fails: no owner reference of the observed deployment
    matches the managed resource on kind, name and unique id, yet the pass
    issues the update call and takes the name out of the dirty set, because
    the controlling reference carries the same unique id. *)
Lemma same_uid_other_kind_is_updated :
  establishesOwner strangerOwned exampleFoo = false /\
  exists st' w',
    controller.synchronize alwaysCreated ["abc"] (observing strangerOwned)
      controller.newWorld = (controller.Done None, st', w') /\
    controller.requests w'
    = [kubeapi.UpdateDeployment
         (controller.withResourceVersion "7" (controller.newDeployment exampleFoo))] /\
    "abc" ∉ controller.todo st'.
Proof.
  split; [reflexivity|].
  exists (controller.setTodo ({["abc"]} ∖ {["abc"]}) (observing strangerOwned)),
         (controller.issue
            (kubeapi.UpdateDeployment
               (controller.withResourceVersion "7"
                  (controller.newDeployment exampleFoo)))
            controller.newWorld).
  split; [vm_compute; reflexivity|]. split; [reflexivity|].
  simpl. set_solver.
Qed.

(** ** The dirty set *)

(** C9.  Whatever a synchronization pass returns: a name it has taken out
    of the dirty set is settled (no desired entry, or the owned deployment
    has the desired replica count, or its create or update call succeeded);
    a name in ownership conflict stays; a pass that fails stops at the
    failing name, which stays, with the status that the names before it
    left, and the loop goes on from that status after logging and asking
    for another tick; the pass changes neither the desired nor the observed
    map; and the other cases of the select only add to the dirty set.  The
    tick of the loop goes on with exactly the status that the pass returns,
    whatever the pass returns, so the same holds of every step of the loop:
    a step takes a name out of the dirty set only on a tick and only when
    the name is settled, and a name in ownership conflict stays dirty. *)
Theorem todo_removed_only_when_settled
    (transport : list (kubeapi.Request appsv1.Deployment) ->
                 kubeapi.Request appsv1.Deployment -> kubeapi.Answer)
    (order : list string) (st st' : controller.controllerStatus)
    (w w' : controller.World) (r : controller.outcome (option error)) :
  controller.synchronize transport order st w = (r, st', w') ->
  (forall n, n ∈ controller.todo st -> n ∉ controller.todo st' ->
             settled transport st w w' n) /\
  (forall n, conflict st n -> n ∈ controller.todo st -> n ∈ controller.todo st') /\
  (forall err, r = controller.Done (Some err) ->
     (exists pre item post w1,
        order = pre ++ item :: post /\
        controller.synchronize transport pre st w = (controller.Done None, st', w1) /\
        controller.synchronizeItem transport item st' w1
        = (controller.Done (Some err), st', w') /\
        (item ∈ controller.todo st -> item ∉ pre -> item ∈ controller.todo st')) /\
     (forall d f,
        controller.iteration transport
          {| controller.status := st; controller.deploymentsCh := d;
             controller.foosCh := f |} (controller.Tick order) w
        = controller.bothClosed
            {| controller.status := st'; controller.deploymentsCh := d;
               controller.foosCh := f |}
            (controller.AskTick
               (controller.Printf
                  ("Synchronize failed, will retry: " +:+ Error err) w')))) /\
  controller.foos st' = controller.foos st /\
  controller.deployments st' = controller.deployments st /\
  controller.todo st' ⊆ controller.todo st /\
  (forall l i wl l' wl',
     (forall order', i <> controller.Tick order') ->
     controller.iteration transport l i wl = (controller.Continue l', wl') ->
     controller.todo (controller.status l) ⊆ controller.todo (controller.status l')) /\
  (forall d f,
     controller.iteration transport
       {| controller.status := st; controller.deploymentsCh := d;
          controller.foosCh := f |} (controller.Tick order) w
     = match r with
       | controller.Done None =>
           controller.bothClosed
             {| controller.status := st'; controller.deploymentsCh := d;
                controller.foosCh := f |} w'
       | controller.Done (Some err) =>
           controller.bothClosed
             {| controller.status := st'; controller.deploymentsCh := d;
                controller.foosCh := f |}
             (controller.AskTick
                (controller.Printf
                   ("Synchronize failed, will retry: " +:+ Error err) w'))
       | controller.Panic => (controller.Crash, controller.closeErrors w')
       end) /\
  (forall l i wl l' wl' n,
     controller.iteration transport l i wl = (controller.Continue l', wl') ->
     n ∈ controller.todo (controller.status l) ->
     n ∉ controller.todo (controller.status l') ->
     exists order', i = controller.Tick order' /\
                    settled transport (controller.status l) wl wl' n) /\
  (forall l i wl l' wl' n,
     controller.iteration transport l i wl = (controller.Continue l', wl') ->
     conflict (controller.status l) n ->
     n ∈ controller.todo (controller.status l) ->
     n ∈ controller.todo (controller.status l')).
Proof.
  intros Hsync.
  pose proof (synchronize_frame transport _ _ _ _ _ _ Hsync)
    as (Hf & Hd & Ht & _).
  split; [|split; [|split; [|split; [done|split; [done|split; [done|
    split; [|split; [|split]]]]]]]].
  - intros n. by eapply synchronize_settled.
  - intros n. by eapply synchronize_conflict.
  - intros err ->. split.
    + destruct (synchronize_failed transport _ _ _ _ _ _ Hsync)
        as (pre & item & post & w1 & Ho & Hpre & Hitem).
      exists pre, item, post, w1. repeat split; try done.
      intros Hin Hni.
      by apply (synchronize_frame transport _ _ _ _ _ _ Hpre).
    + intros d f. unfold controller.iteration. simpl. by rewrite Hsync.
  - intros l i wl l' wl' Hno Hit.
    apply iteration_facts in Hit as (_ & _ & _ & _ & _ & _ & Hsub). by apply Hsub.
  - intros d f. by apply iteration_Tick.
  - intros l i wl l' wl' n. apply iteration_removed.
  - intros l i wl l' wl' n. apply iteration_conflict.
Qed.

Lemma todo_removed_only_when_settled_witness :
  controller.synchronize refusesThree ["one"; "two"] twoDirty controller.newWorld
  = (controller.Done (Some (RequestError 401 "3 is not OK")), afterOne, worldAfterTwo)
  /\ settled refusesThree twoDirty controller.newWorld worldAfterTwo "one".
Proof.
  assert (H : controller.synchronize refusesThree ["one"; "two"] twoDirty
                controller.newWorld
              = (controller.Done (Some (RequestError 401 "3 is not OK")),
                 afterOne, worldAfterTwo)) by (vm_compute; reflexivity).
  split; [exact H|].
  apply (proj1 (todo_removed_only_when_settled refusesThree ["one"; "two"]
                  twoDirty afterOne controller.newWorld worldAfterTwo _ H)).
  - unfold twoDirty. simpl. set_solver.
  - unfold afterOne. simpl. set_solver.
Defined.

(** ** The replica count of an observed deployment *)

(** C10.  A pass does not panic when every observed deployment has a
    replica count.  It panics as soon as it compares the replica counts for
    a name whose deployment is observed, is controlled by the desired entry
    and has none; the loop then crashes on the tick, and all that it still
    does is the deferred close of its error output. *)
Theorem synchronize_panics_only_on_nil_replicas
    (transport : list (kubeapi.Request appsv1.Deployment) ->
                 kubeapi.Request appsv1.Deployment -> kubeapi.Answer) :
  (forall order st w,
     (forall name dep, controller.deployments st !! name = Some dep ->
                       appsv1.Replicas (appsv1.Spec dep) <> None) ->
     (controller.synchronize transport order st w).1.1 <> controller.Panic) /\
  (forall item order st w foo dep,
     controller.foos st !! item = Some foo ->
     controller.deployments st !! controller.DeploymentName (controller.Spec foo)
       = Some dep ->
     metav1.IsControlledBy (appsv1.ObjectMeta dep) (controller.ObjectMeta foo) = true ->
     appsv1.Replicas (appsv1.Spec dep) = None ->
     controller.synchronize transport (item :: order) st w = (controller.Panic, st, w) /\
     forall d f,
       controller.iteration transport
         {| controller.status := st; controller.deploymentsCh := d;
            controller.foosCh := f |} (controller.Tick (item :: order)) w
       = (controller.Crash, controller.closeErrors w)).
Proof.
  split.
  - intros order st w. apply synchronize_no_panic.
  - intros item order st w foo dep Hfoo Hdep Hctl Hrep.
    assert (H : controller.synchronize transport (item :: order) st w
                = (controller.Panic, st, w)).
    { simpl. unfold controller.synchronizeItem. by rewrite Hfoo, Hdep, Hctl, Hrep. }
    split; [done|]. intros d f. unfold controller.iteration.
    cbn [controller.status]. by rewrite H.
Qed.

Lemma synchronize_panics_only_on_nil_replicas_witness :
  (controller.synchronize alwaysCreated ["abc"] (observing twoOwners)
     controller.newWorld).1.1 <> controller.Panic /\
  controller.synchronize alwaysCreated ["abc"] (observing noReplicas)
    controller.newWorld
  = (controller.Panic, observing noReplicas, controller.newWorld).
Proof.
  split.
  - apply (proj1 (synchronize_panics_only_on_nil_replicas alwaysCreated)).
    intros name dep Hl. unfold observing in Hl. simpl in Hl.
    apply lookup_singleton_Some in Hl as [_ <-]. done.
  - apply (proj2 (synchronize_panics_only_on_nil_replicas alwaysCreated)
             "abc" [] (observing noReplicas) controller.newWorld
             exampleFoo noReplicas); reflexivity.
Defined.

(** The crash, from the start of the controller: the managed resource
    arrives, then its deployment without a replica count, then the tick. *)
Lemma nil_replicas_crash :
  exists c,
    controller.exec alwaysCreated controller.NewController
      [controller.EvStart (controller.Done None);
       controller.EvSelect
         (controller.FromFoos (controller.Msg (kubeapi.itemEvent false exampleFoo)));
       controller.EvSelect
         (controller.FromDeployments
            (controller.Msg (kubeapi.itemEvent false noReplicas)));
       controller.EvSelect (controller.Tick ["abc"])] = Some c /\
    controller.phase c = controller.Panicked.
Proof. eexists. split; [vm_compute; reflexivity|reflexivity]. Qed.

(** ** The messages that the tests of the controller expect *)

(** TestCreationError: every request answered 404. *)
Example creation_error_404 :
  map Error
    (controller.Errors
       (controller.world
          (controller.startAux
             (controller.addFooCRD exampleDecoder exampleUnmarshalCRD
                {| kubeapi.marshalErr := None;
                   kubeapi.roundTrip := kubeapi.Response 404 "dummy";
                   kubeapi.closeErr := None |}
                (kubeapi.Response 404 "dummy"))
             controller.NewController)))
  = ["Could not add CRD: http request failed: code=404 body="
       +:+ quote +:+ "dummy" +:+ quote].
Proof. vm_compute. reflexivity. Qed.

(** TestCreationError: the watch answers with an envelope of type XYZ. *)
Example creation_error_invalid_type :
  map Error
    (controller.Errors
       (controller.world
          (controller.startAux
             (controller.addFooCRD exampleDecoder exampleUnmarshalCRD
                {| kubeapi.marshalErr := None;
                   kubeapi.roundTrip := kubeapi.Response 201 "x";
                   kubeapi.closeErr := None |}
                (kubeapi.Response 201 "x"))
             controller.NewController)))
  = ["Could not add CRD: Invalid EventType: XYZ"].
Proof. vm_compute. reflexivity. Qed.

(** TestCreationError: no responder at all.  The error of the POST is
    dropped and the one reported is that of the watch. *)
Example creation_error_no_responder :
  map Error
    (controller.Errors
       (controller.world
          (controller.startAux
             (controller.addFooCRD exampleDecoder exampleUnmarshalCRD
                {| kubeapi.marshalErr := None;
                   kubeapi.roundTrip :=
                     kubeapi.TransportError (errorString "no responder found");
                   kubeapi.closeErr := None |}
                (kubeapi.TransportError (errorString "no responder found")))
             controller.NewController)))
  = ["Could not add CRD: Watch failed: no responder found"].
Proof. vm_compute. reflexivity. Qed.

(** TestBrokenFoo: undecodable bytes on the stream of the managed
    resources, through the producer and the loop. *)
Example broken_foo :
  exists ev c,
    kubeapi.produceResources exampleDecoder exampleUnmarshalFoo (fun _ => false)
      "foos" (kubeapi.Response 200 "!") = [ev] /\
    controller.exec alwaysCreated controller.NewController
      [controller.EvStart (controller.Done None);
       controller.EvSelect (controller.FromFoos (controller.Msg ev))] = Some c /\
    controller.phase c = controller.Stopped /\
    map Error (controller.Errors (controller.world c))
    = ["Reading Foos: Could not decode WatchEvent(foos): invalid character"] /\
    controller.ErrorsClosed (controller.world c) = true.
Proof.
  eexists _, _. split; [reflexivity|]. split; [reflexivity|].
  split; [reflexivity|]. split; reflexivity.
Qed.

(** TestFoo, the retry: the server refuses three replicas, the pass fails,
    the failure is logged, another tick is asked for, and the name is still
    dirty. *)
Example refused_update_is_retried :
  controller.iteration refusesThree
    {| controller.status :=
         {| controller.foos := {["two" := fooNamed "two" "dep-two" 3]};
            controller.deployments := ∅;
            controller.todo := {["two"]} |};
       controller.deploymentsCh := true; controller.foosCh := true |}
    (controller.Tick ["two"]) controller.newWorld
  = (controller.Continue
       {| controller.status :=
            {| controller.foos := {["two" := fooNamed "two" "dep-two" 3]};
               controller.deployments := ∅;
               controller.todo := {["two"]} |};
          controller.deploymentsCh := true; controller.foosCh := true |},
     {| controller.requests :=
          [kubeapi.AddDeployment
             (controller.newDeployment (fooNamed "two" "dep-two" 3))];
        controller.logged :=
          ["Synchronize failed, will retry: http request failed: code=401 body="
             +:+ quote +:+ "3 is not OK" +:+ quote];
        controller.asked := 1;
        controller.Errors := [];
        controller.ErrorsClosed := false |}).
Proof. vm_compute. reflexivity. Qed.

(** * Further properties of the code *)

(** ** The REST verbs *)

(** X1.  [putOrPost] returns nil exactly when the object was marshalled,
    the transport answered with a status in 200..299 and the body was
    closed without error; a status outside that range comes back as a
    [RequestError] with that status and the body, whatever closing would
    have said.  [Delete] returns nil exactly when the status is in range:
    an answer that [putOrPost] accepts is accepted by [Delete], and a
    failure to close the body is reported by the former only. *)
Theorem rest_verbs_result (marshalErr closeErr : option error)
    (rt : kubeapi.RoundTrip) :
  (kubeapi.putOrPost marshalErr rt closeErr = None <->
   marshalErr = None /\ closeErr = None /\
   exists code body, rt = kubeapi.Response code body /\ 200 <= code < 300) /\
  (forall code body,
     marshalErr = None -> rt = kubeapi.Response code body ->
     ~ (200 <= code < 300) ->
     kubeapi.putOrPost marshalErr rt closeErr = Some (RequestError code body)) /\
  (kubeapi.Delete rt = None <->
   exists code body, rt = kubeapi.Response code body /\ 200 <= code < 300) /\
  (kubeapi.putOrPost marshalErr rt closeErr = None -> kubeapi.Delete rt = None).
Proof.
  assert (Hdo : forall code body,
            kubeapi.do (kubeapi.Response code body)
            = if bool_decide (200 <= code < 300) then inl body
              else inr (RequestError code body)).
  { intros code body. unfold kubeapi.do.
    case_bool_decide as H.
    - destruct H as [H1 H2].
      apply Z.leb_le in H1. apply Z.ltb_lt in H2. by rewrite H1, H2.
    - destruct (200 <=? code) eqn:H1; [|done].
      destruct (code <? 300) eqn:H2; [|done].
      apply Z.leb_le in H1. apply Z.ltb_lt in H2. lia. }
  assert (Hdel : kubeapi.Delete rt = None <->
            exists code body, rt = kubeapi.Response code body /\ 200 <= code < 300).
  { unfold kubeapi.Delete. destruct rt as [err|code body].
    - simpl. split; [done|]. by intros (? & ? & ? & _).
    - rewrite Hdo. case_bool_decide as H.
      + split; [eauto|done].
      + split; [done|]. intros (? & ? & [= <- <-] & ?). done. }
  assert (Hput : kubeapi.putOrPost marshalErr rt closeErr = None <->
            marshalErr = None /\ closeErr = None /\
            exists code body, rt = kubeapi.Response code body /\ 200 <= code < 300).
  { unfold kubeapi.putOrPost. destruct marshalErr as [e|].
    - split; [done|]. by intros [? _].
    - destruct rt as [err|code body].
      + simpl. split; [done|]. by intros (_ & _ & ? & ? & ? & _).
      + rewrite Hdo. case_bool_decide as H.
        * split; [eauto 10|]. by intros (_ & -> & _).
        * split; [done|]. intros (_ & _ & ? & ? & [= <- <-] & ?). done. }
  split; [done|]. split; [|split; [done|]].
  - intros code body -> -> Hout. unfold kubeapi.putOrPost.
    rewrite Hdo. by rewrite bool_decide_false.
  - intros H. apply Hdel. by apply Hput in H as (_ & _ & ?).
Qed.

Lemma rest_verbs_result_witness :
  kubeapi.putOrPost None (kubeapi.Response 401 "3 is not OK") None
  = Some (RequestError 401 "3 is not OK").
Proof.
  apply (proj1 (proj2 (rest_verbs_result None None
                         (kubeapi.Response 401 "3 is not OK")))
           401 "3 is not OK" eq_refl eq_refl).
  lia.
Defined.

(** ** The watch producer, continued *)

(** X2.  [parseEventType] accepts exactly the three types of the watch
    protocol, reports a deletion exactly for DELETED, and names the
    offending type in its error. *)
Theorem parseEventType_accepts (ty : string) :
  ((kubeapi.parseEventType ty).2 = None <->
   ty = "ADDED" \/ ty = "MODIFIED" \/ ty = "DELETED") /\
  ((kubeapi.parseEventType ty).1 = true <-> ty = "DELETED") /\
  (forall err, (kubeapi.parseEventType ty).2 = Some err ->
               Error err = "Invalid EventType: " +:+ ty).
Proof.
  unfold kubeapi.parseEventType.
  destruct (decide (ty = "ADDED")) as [->|H1]; [simpl; naive_solver|].
  destruct (decide (ty = "MODIFIED")) as [->|H2]; [simpl; naive_solver|].
  destruct (decide (ty = "DELETED")) as [->|H3]; [simpl; naive_solver|].
  rewrite !bool_decide_false by done. simpl.
  split; [naive_solver|]. split; [naive_solver|]. by intros err [= <-].
Qed.

Lemma parseEventType_accepts_witness :
  (kubeapi.parseEventType "MODIFIED").2 = None.
Proof.
  apply (proj1 (parseEventType_accepts "MODIFIED")). right. by left.
Defined.

Section produce_more.

Import kubeapi.

Context {T : Type}.
Variable jsonUnmarshal : string -> T + error.

(** Whatever the stop channel does, the loop sends events with an object
    and no error, and then at most one more event. *)
Lemma decodeLoop_shape stopCh path body n :
  exists items last,
    decodeLoop jsonUnmarshal stopCh path body n = items ++ last /\
    Forall (fun ev => Err ev = None /\ is_Some (Item ev)) items /\ (length last <= 1)%nat.
Proof.
  revert n. induction body as [|f body IH]; intros n; simpl.
  - exists [], (send stopCh n (errEvent (decodeError path EOF))).
    split; [done|]. split; [done|]. unfold send. destruct (stopCh n); simpl; lia.
  - destruct f as [we|err].
    + destruct (parseEventType (metav1.Type_ we)) as [d [e|]].
      * exists [], (send stopCh n (errEvent e)).
        split; [done|]. split; [done|]. unfold send. destruct (stopCh n); simpl; lia.
      * destruct (jsonUnmarshal (metav1.Raw we)) as [obj|e].
        -- destruct (IH (S n)) as (items & last & -> & Hitems & Hlast).
           exists (send stopCh n (itemEvent d obj) ++ items), last.
           split; [by rewrite app_assoc|]. split; [|done].
           apply Forall_app. split; [|done].
           unfold send. destruct (stopCh n); constructor; [|done].
           split; [done|]. by eexists.
        -- exists [], (send stopCh n
                         (errEvent (Errorf_w "Unmarshaling of resource failed: " e))).
           split; [done|]. split; [done|].
           unfold send. destruct (stopCh n); simpl; lia.
    + exists [], (send stopCh n (errEvent (decodeError path err))).
      split; [done|]. split; [done|]. unfold send. destruct (stopCh n); simpl; lia.
Qed.

Lemma decodeLoop_closedFrom m path body n :
  decodeLoop jsonUnmarshal (closedFrom m) path body n
  = take (m - n) (decodeLoop jsonUnmarshal (fun _ => false) path body n).
Proof.
  assert (Hone : forall n (ev : WatchEvent T),
            send (closedFrom m) n ev = take (m - n) (send (fun _ => false) n ev)).
  { intros n' ev. unfold send, closedFrom. case_bool_decide.
    - by replace (m - n')%nat with 0%nat by lia.
    - by rewrite take_ge by (simpl; lia). }
  revert n. induction body as [|f body IH]; intros n; simpl; [apply Hone|].
  destruct f as [we|err]; [|apply Hone].
  destruct (parseEventType (metav1.Type_ we)) as [d [e|]]; [apply Hone|].
  destruct (jsonUnmarshal (metav1.Raw we)) as [obj|e]; [|apply Hone].
  rewrite IH. unfold send, closedFrom. case_bool_decide; simpl.
  - replace (m - n)%nat with 0%nat by lia.
    by replace (m - S n)%nat with 0%nat by lia.
  - by replace (m - n)%nat with (S (m - S n))%nat by lia.
Qed.

End produce_more.

(** X3.  Whatever the stop channel does, an event with an error is the
    last event that [produceResources] sends: every event before the last
    one carries an object and no error. *)
Theorem produceResources_error_is_last {T : Type}
    (jsonDecoder : string -> list kubeapi.frame)
    (jsonUnmarshal : string -> T + error) (stopCh : nat -> bool)
    (path : string) (rt : kubeapi.RoundTrip)
    (evs : list (kubeapi.WatchEvent T)) (ev : kubeapi.WatchEvent T) :
  kubeapi.produceResources jsonDecoder jsonUnmarshal stopCh path rt = evs ++ [ev] ->
  Forall (fun e => kubeapi.Err e = None /\ is_Some (kubeapi.Item e)) evs.
Proof.
  unfold kubeapi.produceResources. destruct (kubeapi.Get rt) as [body|err].
  - destruct (decodeLoop_shape jsonUnmarshal stopCh path (jsonDecoder body) 0)
      as (items & last & -> & Hitems & Hlast).
    intros Heq. destruct last as [|x [|y last]]; simpl in Hlast; [| |lia].
    + rewrite app_nil_r in Heq. subst items.
      by apply Forall_app in Hitems as [? _].
    + by apply app_inj_tail in Heq as [<- _].
  - intros Heq. destruct evs as [|e [|e' evs]]; [done|done|done].
Qed.

Lemma produceResources_error_is_last_witness :
  kubeapi.produceResources exampleDecoder exampleUnmarshal (fun _ => false)
    "deployments" (kubeapi.Response 200 "ad!a")
  = [kubeapi.itemEvent false "{}"; kubeapi.itemEvent true "{}"]
    ++ [kubeapi.errEvent
          (wrapError "Could not decode WatchEvent(deployments): invalid character"
             (errorString "invalid character"))]
  /\ Forall (fun e : kubeapi.WatchEvent string =>
               kubeapi.Err e = None /\ is_Some (kubeapi.Item e))
       [kubeapi.itemEvent false "{}"; kubeapi.itemEvent true "{}"].
Proof.
  split; [reflexivity|].
  exact (produceResources_error_is_last exampleDecoder exampleUnmarshal
           (fun _ => false) "deployments" (kubeapi.Response 200 "ad!a")
           [kubeapi.itemEvent false "{}"; kubeapi.itemEvent true "{}"]
           (kubeapi.errEvent
              (wrapError "Could not decode WatchEvent(deployments): invalid character"
                 (errorString "invalid character")))
           eq_refl).
Defined.

(** X4.  Cancelling a watch cuts its stream and adds nothing: when the
    stop channel is closed from the [m]-th send on, a watch whose GET
    succeeded sends the first [m] events of what it would have sent
    uncancelled, and nothing else, not even the error of the read that the
    cancellation breaks. *)
Theorem produceResources_cancelled_is_prefix {T : Type}
    (jsonDecoder : string -> list kubeapi.frame)
    (jsonUnmarshal : string -> T + error) (m : nat)
    (path : string) (rt : kubeapi.RoundTrip) (body : string) :
  kubeapi.Get rt = inl body ->
  kubeapi.produceResources jsonDecoder jsonUnmarshal (closedFrom m) path rt
  = take m (kubeapi.produceResources jsonDecoder jsonUnmarshal (fun _ => false)
              path rt).
Proof.
  intros Hget. unfold kubeapi.produceResources. rewrite Hget.
  rewrite decodeLoop_closedFrom. by rewrite Nat.sub_0_r.
Qed.

Lemma produceResources_cancelled_is_prefix_witness :
  kubeapi.Get (kubeapi.Response 200 "ad!a") = inl "ad!a" /\
  kubeapi.produceResources exampleDecoder exampleUnmarshal (closedFrom 1)
    "deployments" (kubeapi.Response 200 "ad!a")
  = take 1 (kubeapi.produceResources exampleDecoder exampleUnmarshal
              (fun _ => false) "deployments" (kubeapi.Response 200 "ad!a")).
Proof.
  split; [reflexivity|].
  exact (produceResources_cancelled_is_prefix exampleDecoder exampleUnmarshal 1
           "deployments" (kubeapi.Response 200 "ad!a") "ad!a" eq_refl).
Defined.

(** X5.  While the stop channel stays open, [produceResources] keeps the
    order of the stream: it sends the events of the envelopes before the
    first bad frame, in the order of the body, then the one error event of
    that frame, and the frames behind it make no difference. *)
Theorem produceResources_keeps_order {T : Type}
    (jsonDecoder : string -> list kubeapi.frame)
    (jsonUnmarshal : string -> T + error) (stopCh : nat -> bool)
    (path body : string) (good rest : list kubeapi.frame) (bad : kubeapi.frame)
    (evs : list (kubeapi.WatchEvent T)) (err : error) :
  (forall k, stopCh k = false) ->
  jsonDecoder body = good ++ bad :: rest ->
  Forall2 (fun f ev => frameEvent jsonUnmarshal f = Some ev) good evs ->
  frameError jsonUnmarshal path bad = Some err ->
  kubeapi.produceResources jsonDecoder jsonUnmarshal stopCh path
    (kubeapi.Response 200 body)
  = evs ++ [kubeapi.errEvent err] /\
  forall rest',
    kubeapi.decodeLoop jsonUnmarshal stopCh path (good ++ bad :: rest') 0
    = evs ++ [kubeapi.errEvent err].
Proof.
  intros Hstop Hbody Hgood Hbad. split.
  - by apply (produceResources_one_terminal_error jsonDecoder jsonUnmarshal
                stopCh path body good bad rest evs err).
  - intros rest'. by apply decodeLoop_stops_at_first_error.
Qed.

Lemma produceResources_keeps_order_witness :
  kubeapi.produceResources exampleDecoder exampleUnmarshal (fun _ => false)
    "deployments" (kubeapi.Response 200 "adxa")
  = [kubeapi.itemEvent false "{}"; kubeapi.itemEvent true "{}"]
    ++ [kubeapi.errEvent (errorString "Invalid EventType: XYZ")].
Proof.
  refine (proj1 (produceResources_keeps_order exampleDecoder exampleUnmarshal
                   (fun _ => false) "deployments" "adxa"
                   (exampleDecoder "ad") (exampleDecoder "a")
                   (kubeapi.Envelope
                      {| metav1.Type_ := "XYZ"; metav1.Raw := "{}" |})
                   [kubeapi.itemEvent false "{}"; kubeapi.itemEvent true "{}"]
                   (errorString "Invalid EventType: XYZ")
                   (fun _ => eq_refl) eq_refl _ eq_refl)).
  repeat constructor.
Defined.

(** ** The wait for the Established condition *)

(** X6.  Deletions do not count: a deleted definition on the watch of
    [addCRD], wherever it comes, changes nothing of the outcome. *)
Theorem waitEstablished_skips_deletions
    (pre post : list (kubeapi.WatchEvent apiextensionsv1.CustomResourceDefinition))
    (del : kubeapi.WatchEvent apiextensionsv1.CustomResourceDefinition) :
  kubeapi.Err del = None -> kubeapi.IsDelete del = true ->
  controller.waitEstablished (pre ++ del :: post)
  = controller.waitEstablished (pre ++ post).
Proof.
  intros Herr Hdel. induction pre as [|r pre IH]; simpl.
  - by rewrite Herr, Hdel.
  - rewrite IH. done.
Qed.

Lemma waitEstablished_skips_deletions_witness :
  controller.waitEstablished
    ([] ++ kubeapi.mkWatchEvent true None None
        :: [kubeapi.errEvent (errorString "EOF")])
  = controller.waitEstablished ([] ++ [kubeapi.errEvent (errorString "EOF")]).
Proof.
  exact (waitEstablished_skips_deletions [] [kubeapi.errEvent (errorString "EOF")]
           (kubeapi.mkWatchEvent true None None) eq_refl eq_refl).
Defined.

Section established_only.

Import kubeapi controller.

Variable jsonDecoder : string -> list frame.
Variable jsonUnmarshal : string -> apiextensionsv1.CustomResourceDefinition + error.

(** While the stop channel stays open, the stream of a watch ends with an
    error event: that of a bad frame, or that of the read that fails at the
    end of the body. *)
Lemma decodeLoop_ends_with_error path body n :
  exists evs e,
    decodeLoop jsonUnmarshal (fun _ => false) path body n = evs ++ [errEvent e].
Proof.
  revert n. induction body as [|f body IH]; intros n; simpl.
  - by exists [], (decodeError path EOF).
  - destruct f as [we|err]; [|by exists [], (decodeError path err)].
    destruct (parseEventType (metav1.Type_ we)) as [d [e|]]; [by exists [], e|].
    destruct (jsonUnmarshal (metav1.Raw we)) as [obj|e];
      [|by eexists [], _].
    destruct (IH (S n)) as (evs & e & ->).
    by exists (itemEvent d obj :: evs), e.
Qed.

Lemma produceResources_ends_with_error path rt :
  exists evs e,
    produceResources jsonDecoder jsonUnmarshal (fun _ => false) path rt
    = evs ++ [errEvent e].
Proof.
  unfold produceResources. destruct (Get rt) as [body|err].
  - apply decodeLoop_ends_with_error.
  - by eexists [], _.
Qed.

(** The wait ends without an error at an established definition, or at the
    end of a stream that had nothing but events it passes over. *)
Lemma waitEstablished_nil resources :
  waitEstablished resources = Done None ->
  Forall passedOver resources \/
  exists skipped res rest item,
    resources = skipped ++ res :: rest /\ Forall passedOver skipped /\
    Err res = None /\ IsDelete res = false /\ Item res = Some item /\
    established item = true.
Proof.
  induction resources as [|r rs IH]; simpl; [by left|].
  destruct (Err r) as [e|] eqn:He; [done|].
  destruct (IsDelete r) eqn:Hd.
  - intros H. destruct (IH H) as [Hall|(sk & res & rest & item & -> & Hsk & Hres)].
    + left. constructor; [|done]. split; [done|by left].
    + right. exists (r :: sk), res, rest, item. split; [done|].
      split; [|done]. constructor; [|done]. split; [done|by left].
  - destruct (Item r) as [it|] eqn:Hi; [|done].
    destruct (established it) eqn:Hest.
    + intros _. right. by exists [], r, rs, it.
    + intros H. destruct (IH H) as [Hall|(sk & res & rest & item & -> & Hsk & Hres)].
      * left. constructor; [|done]. split; [done|]. right. by exists it.
      * right. exists (r :: sk), res, rest, item. split; [done|].
        split; [|done]. constructor; [|done]. split; [done|]. right. by exists it.
Qed.

End established_only.

(** X7.  [addFooCRD] returns nil only for an established definition.  The
    producer of the watch ends its stream with an error event as long as
    its stop channel is open, and [addCRD] closes that channel only when it
    returns: so the wait never ends by the watch being closed, and when
    [addFooCRD] returns nil, the registration was not refused (no
    [RequestError] other than 409) and the watch has delivered, after events
    that the wait passes over, an upsert of a definition that reports the
    condition Established. *)
Theorem addFooCRD_nil_means_established
    (jsonDecoder : string -> list kubeapi.frame)
    (jsonUnmarshal : string -> apiextensionsv1.CustomResourceDefinition + error)
    (post : kubeapi.Answer) (watch : kubeapi.RoundTrip) :
  controller.addFooCRD jsonDecoder jsonUnmarshal post watch = controller.Done None ->
  (asRequestError (kubeapi.result post) = None \/
   asRequestError (kubeapi.result post) = Some 409) /\
  exists skipped res rest item,
    kubeapi.produceResources jsonDecoder jsonUnmarshal (fun _ => false)
      "customresourcedefinitions" watch = skipped ++ res :: rest /\
    Forall passedOver skipped /\
    kubeapi.Err res = None /\ kubeapi.IsDelete res = false /\
    kubeapi.Item res = Some item /\ controller.established item = true.
Proof.
  unfold controller.addFooCRD, controller.addCRD. intros H.
  assert (Hwait :
    (asRequestError (kubeapi.result post) = None \/
     asRequestError (kubeapi.result post) = Some 409) /\
    controller.waitEstablished
      (kubeapi.produceResources jsonDecoder jsonUnmarshal (fun _ => false)
         "customresourcedefinitions" watch) = controller.Done None).
  { destruct (asRequestError (kubeapi.result post)) as [code|] eqn:Hcode;
      [|split; [by left|done]].
    destruct (code =? 409) eqn:H409; simpl in H.
    - apply Z.eqb_eq in H409 as ->. split; [by right|done].
    - injection H as H. rewrite H in Hcode. done. }
  destruct Hwait as [Hpost Hwait]. split; [done|].
  apply waitEstablished_nil in Hwait as [Hall|Hest]; [|done].
  destruct (produceResources_ends_with_error jsonDecoder jsonUnmarshal
              "customresourcedefinitions" watch) as (evs & e & Heq).
  rewrite Heq in Hall. apply Forall_app in Hall as [_ Hlast].
  apply Forall_cons in Hlast as [[Herr _] _]. done.
Qed.

Lemma addFooCRD_nil_means_established_witness :
  controller.addFooCRD exampleDecoder exampleUnmarshalCRD
    {| kubeapi.marshalErr := None;
       kubeapi.roundTrip := kubeapi.Response 409 "AlreadyExists";
       kubeapi.closeErr := None |}
    (kubeapi.Response 200 "da") = controller.Done None
  /\ (asRequestError
        (kubeapi.result
           {| kubeapi.marshalErr := None;
              kubeapi.roundTrip := kubeapi.Response 409 "AlreadyExists";
              kubeapi.closeErr := None |}) = None \/
      asRequestError
        (kubeapi.result
           {| kubeapi.marshalErr := None;
              kubeapi.roundTrip := kubeapi.Response 409 "AlreadyExists";
              kubeapi.closeErr := None |}) = Some 409).
Proof.
  split; [reflexivity|].
  exact (proj1 (addFooCRD_nil_means_established exampleDecoder exampleUnmarshalCRD
                  {| kubeapi.marshalErr := None;
                     kubeapi.roundTrip := kubeapi.Response 409 "AlreadyExists";
                     kubeapi.closeErr := None |}
                  (kubeapi.Response 200 "da") eq_refl)).
Defined.

(** X8.  The wait ends at the first definition that reports Established:
    what the watch sends after it, errors included, is never looked at. *)
Theorem waitEstablished_stops_at_first_established
    (skipped rest : list (kubeapi.WatchEvent apiextensionsv1.CustomResourceDefinition))
    (res : kubeapi.WatchEvent apiextensionsv1.CustomResourceDefinition)
    (item : apiextensionsv1.CustomResourceDefinition) :
  Forall passedOver skipped ->
  kubeapi.Err res = None -> kubeapi.IsDelete res = false ->
  kubeapi.Item res = Some item -> controller.established item = true ->
  controller.waitEstablished (skipped ++ res :: rest) = controller.Done None.
Proof.
  intros Hskip Herr Hdel Hitem Hest.
  induction Hskip as [|r rs [Hr Hcase] _ IH]; simpl.
  - by rewrite Herr, Hdel, Hitem, Hest.
  - rewrite Hr. destruct Hcase as [->|(it & -> & ->)]; [done|].
    by destruct (kubeapi.IsDelete r).
Qed.

Lemma waitEstablished_stops_at_first_established_witness :
  controller.waitEstablished
    ([] ++ kubeapi.itemEvent false
             {| apiextensionsv1.Name := "foos.samplecontroller.example.com";
                apiextensionsv1.Conditions :=
                  [ {| apiextensionsv1.Type_ := "Established";
                       apiextensionsv1.Status := "True" |} ] |}
        :: [kubeapi.errEvent (errorString "EOF")])
  = controller.Done None.
Proof.
  exact (waitEstablished_stops_at_first_established []
           [kubeapi.errEvent (errorString "EOF")]
           (kubeapi.itemEvent false
              {| apiextensionsv1.Name := "foos.samplecontroller.example.com";
                 apiextensionsv1.Conditions :=
                   [ {| apiextensionsv1.Type_ := "Established";
                        apiextensionsv1.Status := "True" |} ] |})
           _ (List.Forall_nil _) eq_refl eq_refl eq_refl eq_refl).
Defined.

(** ** The calls of a synchronization pass *)

Section pass_calls.

Import kubeapi controller.

Variable transport :
  list (Request appsv1.Deployment) -> Request appsv1.Deployment -> Answer.

(** One name issues no call, or one call that is justified and whose
    answer decides whether the pass goes on. *)
Lemma synchronizeItem_call item st w r1 st1 w1 :
  synchronizeItem transport item st w = (r1, st1, w1) ->
  (requests w1 = requests w /\ forall err, r1 <> Done (Some err)) \/
  (exists req,
     requests w1 = requests w ++ [req] /\ justified st [item] req /\
     r1 = Done (result (transport (requests w) req))).
Proof.
  unfold synchronizeItem, call.
  destruct (foos st !! item) as [foo|] eqn:Hfoo;
    [|intros [= <- <- <-]; left; by split].
  destruct (deployments st !! DeploymentName (Spec foo)) as [dep|] eqn:Hdep.
  - destruct (metav1.IsControlledBy (appsv1.ObjectMeta dep) (ObjectMeta foo))
      eqn:Hctl; simpl; [|intros [= <- <- <-]; left; by split].
    destruct (appsv1.Replicas (appsv1.Spec dep)) as [k|] eqn:Hk;
      [|intros [= <- <- <-]; left; by split].
    destruct (Replicas (Spec foo) =? k) eqn:Heq;
      [intros [= <- <- <-]; left; by split|].
    apply Z.eqb_neq in Heq.
    destruct (result (transport (requests w) _)) as [err|] eqn:Hres;
      intros [= <- <- <-]; right; (eexists; split; [reflexivity|]);
      (split; [|by rewrite Hres]);
      exists item, foo; (split; [by apply list_elem_of_singleton|]);
      (split; [done|]); right; exists dep, k; repeat split; try done; congruence.
  - destruct (result (transport (requests w) _)) as [err|] eqn:Hres;
      intros [= <- <- <-]; right; (eexists; split; [reflexivity|]);
      (split; [|by rewrite Hres]);
      exists item, foo; (split; [by apply list_elem_of_singleton|]);
      (split; [done|]); by left.
Qed.

Lemma justified_mono st st1 order order1 req :
  foos st1 = foos st -> deployments st1 = deployments st ->
  (forall n, n ∈ order1 -> n ∈ order) ->
  justified st1 order1 req -> justified st order req.
Proof.
  intros Hf Hd Hsub (item & foo & Hin & Hfoo & Hcase).
  exists item, foo. rewrite <-Hf, <-Hd. auto.
Qed.

Lemma synchronize_calls order st w r st' w' :
  synchronize transport order st w = (r, st', w') ->
  exists new oks,
    requests w' = requests w ++ new /\
    Forall (justified st order) new /\
    (length new <= length order)%nat /\
    Forall (fun a => a = None) oks /\
    answers transport (requests w) new
    = oks ++ match r with Done (Some err) => [Some err] | _ => [] end.
Proof.
  revert st w. induction order as [|item order IH]; intros st w; simpl.
  - intros [= <- <- <-]. exists [], []. by rewrite app_nil_r.
  - destruct (synchronizeItem transport item st w) as [[r1 st1] w1] eqn:Hitem.
    pose proof (synchronizeItem_frame transport _ _ _ _ _ _ Hitem)
      as (Hf & Hd & _).
    apply synchronizeItem_call in Hitem as [[Hreq Hr1]|(req & Hreq & Hj & Hr1)].
    + destruct r1 as [[err|]|].
      * by destruct (Hr1 err).
      * intros H. destruct (IH _ _ H) as (new & oks & Hn & Hjs & Hlen & Hoks & Hans).
        exists new, oks. rewrite Hn, Hreq. split; [done|].
        split; [|split; [lia|split; [done|by rewrite <-Hreq]]].
        eapply Forall_impl; [exact Hjs|]. intros x. apply justified_mono; try done.
        intros n ?. by right.
      * intros [= <- <- <-]. exists [], []. rewrite app_nil_r.
        repeat split; try done. simpl. lia.
    + assert (Hj' : justified st (item :: order) req).
      { apply (justified_mono st st (item :: order) [item] req eq_refl eq_refl);
          [|exact Hj].
        intros n ->%list_elem_of_singleton. by left. }
      destruct (result (transport (requests w) req)) as [err|] eqn:Hres; subst r1.
      * intros [= <- <- <-]. exists [req], []. simpl. rewrite Hres.
        repeat split; try done; [by constructor|lia].
      * intros H. destruct (IH _ _ H) as (new & oks & Hn & Hjs & Hlen & Hoks & Hans).
        exists (req :: new), (None :: oks). rewrite Hn, Hreq.
        split; [by rewrite <-app_assoc|]. split; [|split; [simpl; lia|split]].
        -- constructor; [done|].
           eapply Forall_impl; [exact Hjs|]. intros x. apply justified_mono; try done.
           intros n ?. by right.
        -- by constructor.
        -- simpl. rewrite Hres. f_equal. by rewrite <-Hreq.
Qed.

(** A name that a pass has gone past without failing is out of the dirty
    set, or in ownership conflict. *)
Lemma synchronizeItem_passed item st w st1 w1 :
  synchronizeItem transport item st w = (Done None, st1, w1) ->
  item ∉ todo st1 \/ conflict st item.
Proof.
  unfold synchronizeItem, call.
  destruct (foos st !! item) as [foo|] eqn:Hfoo;
    [|intros [= <- <-]; left; simpl; set_solver].
  destruct (deployments st !! DeploymentName (Spec foo)) as [dep|] eqn:Hdep.
  - destruct (metav1.IsControlledBy (appsv1.ObjectMeta dep) (ObjectMeta foo))
      eqn:Hctl; simpl; [|intros _; right; by exists foo, dep].
    destruct (appsv1.Replicas (appsv1.Spec dep)) as [k|]; [|done].
    destruct (Replicas (Spec foo) =? k);
      [intros [= <- <-]; left; simpl; set_solver|].
    destruct (result (transport (requests w) _)); [done|].
    intros [= <- <-]; left; simpl; set_solver.
  - destruct (result (transport (requests w) _)); [done|].
    intros [= <- <-]; left; simpl; set_solver.
Qed.

Lemma synchronize_passed order st w st' w' n :
  synchronize transport order st w = (Done None, st', w') ->
  n ∈ order -> n ∈ todo st' -> conflict st n.
Proof.
  revert st w. induction order as [|item order IH]; intros st w; simpl.
  - by intros _ ?%elem_of_nil.
  - destruct (synchronizeItem transport item st w) as [[r1 st1] w1] eqn:Hitem.
    pose proof (synchronizeItem_frame transport _ _ _ _ _ _ Hitem)
      as (Hf & Hd & _).
    destruct r1 as [[err|]|]; [done| |done].
    intros Hsync Hin Hn.
    pose proof (synchronize_frame transport _ _ _ _ _ _ Hsync)
      as (_ & _ & Hsub & _).
    destruct (decide (n = item)) as [->|Hne].
    + apply synchronizeItem_passed in Hitem as [Hout|Hc]; [|done].
      destruct Hout. by apply Hsub.
    + apply elem_of_cons in Hin as [?|Hin]; [done|].
      destruct (IH _ _ Hsync Hin Hn) as (foo & dep & ? & ? & ?).
      exists foo, dep. by rewrite <-Hf, <-Hd.
Qed.

Lemma synchronize_leaves_conflicts order st w st' w' n :
  synchronize transport order st w = (Done None, st', w') ->
  (forall n, n ∈ todo st -> n ∈ order) ->
  n ∈ todo st' -> conflict st n /\ conflict st' n.
Proof.
  intros Hsync Hcover Hn.
  pose proof (synchronize_frame transport _ _ _ _ _ _ Hsync)
    as (Hf & Hd & Hsub & _).
  assert (Hc : conflict st n).
  { eapply synchronize_passed; [exact Hsync| |done]. apply Hcover. by apply Hsub. }
  split; [done|]. destruct Hc as (foo & dep & ? & ? & ?).
  exists foo, dep. by rewrite Hf, Hd.
Qed.

(** A pass over names that are all in conflict issues nothing, changes
    nothing, and logs one warning for each. *)
Lemma synchronize_all_conflicts order st w :
  (forall n, n ∈ order -> conflict st n) ->
  exists w2,
    synchronize transport order st w = (Done None, st, w2) /\
    requests w2 = requests w /\
    length (logged w2) = (length (logged w) + length order)%nat.
Proof.
  revert w. induction order as [|item order IH]; intros w Hall; simpl.
  - exists w. repeat split; lia.
  - destruct (synchronizeItem_conflict transport item st w) as [dep ->].
    { apply Hall. by left. }
    destruct (IH (Printf (notOwnedLine dep) w)) as (w2 & -> & Hr & Hl).
    { intros n ?. apply Hall. by right. }
    exists w2. split; [done|]. split; [done|].
    rewrite Hl. simpl. rewrite length_app. simpl. lia.
Qed.

End pass_calls.

(** X9.  Every call of a pass is justified by the status the pass started
    from: it is the create call for a desired entry of the pass whose
    deployment is not observed, or the update call, carrying the observed
    resource version, for one whose observed deployment it controls and
    that has another replica count.  So a pass never creates what it
    observes, never touches a deployment it does not control or that has
    converged, never deletes, and issues at most one call for each name. *)
Theorem pass_calls_are_justified
    (transport : list (kubeapi.Request appsv1.Deployment) ->
                 kubeapi.Request appsv1.Deployment -> kubeapi.Answer)
    (order : list string) (st st' : controller.controllerStatus)
    (w w' : controller.World) (r : controller.outcome (option error)) :
  controller.synchronize transport order st w = (r, st', w') ->
  exists new,
    controller.requests w' = controller.requests w ++ new /\
    Forall (justified st order) new /\
    Forall (fun req => kubeapi.Method req = "POST" \/ kubeapi.Method req = "PUT") new /\
    (length new <= length order)%nat.
Proof.
  intros H. destruct (synchronize_calls transport _ _ _ _ _ _ H)
    as (new & oks & Hn & Hj & Hlen & _).
  exists new. split; [done|]. split; [done|]. split; [|done].
  eapply Forall_impl; [exact Hj|].
  intros req (item & foo & _ & _ & [[_ ->]|(dep & k & _ & _ & _ & _ & ->)]);
    [by left|by right].
Qed.

Lemma pass_calls_are_justified_witness :
  controller.synchronize refusesThree ["one"; "two"] twoDirty controller.newWorld
  = (controller.Done (Some (RequestError 401 "3 is not OK")), afterOne, worldAfterTwo)
  /\ exists new,
       controller.requests worldAfterTwo
       = controller.requests controller.newWorld ++ new /\
       Forall (justified twoDirty ["one"; "two"]) new /\
       Forall (fun req => kubeapi.Method req = "POST" \/ kubeapi.Method req = "PUT")
         new /\
       (length new <= length ["one"; "two"])%nat.
Proof.
  assert (H : controller.synchronize refusesThree ["one"; "two"] twoDirty
                controller.newWorld
              = (controller.Done (Some (RequestError 401 "3 is not OK")),
                 afterOne, worldAfterTwo)) by (vm_compute; reflexivity).
  split; [exact H|].
  exact (pass_calls_are_justified refusesThree ["one"; "two"] twoDirty afterOne
           controller.newWorld worldAfterTwo _ H).
Defined.

(** X10.  A pass stops at the first call that the server refuses: all the
    calls of a pass but the last were answered with success, and the last
    one was refused exactly when the pass returns an error, which is then
    the error of that call. *)
Theorem pass_stops_at_first_failure
    (transport : list (kubeapi.Request appsv1.Deployment) ->
                 kubeapi.Request appsv1.Deployment -> kubeapi.Answer)
    (order : list string) (st st' : controller.controllerStatus)
    (w w' : controller.World) (r : controller.outcome (option error)) :
  controller.synchronize transport order st w = (r, st', w') ->
  exists new oks,
    controller.requests w' = controller.requests w ++ new /\
    Forall (fun a => a = None) oks /\
    answers transport (controller.requests w) new
    = oks ++ match r with
             | controller.Done (Some err) => [Some err]
             | _ => []
             end.
Proof.
  intros H. destruct (synchronize_calls transport _ _ _ _ _ _ H)
    as (new & oks & Hn & _ & _ & Hoks & Hans).
  by exists new, oks.
Qed.

Lemma pass_stops_at_first_failure_witness :
  controller.synchronize refusesThree ["one"; "two"] twoDirty controller.newWorld
  = (controller.Done (Some (RequestError 401 "3 is not OK")), afterOne, worldAfterTwo)
  /\ exists new oks,
       controller.requests worldAfterTwo
       = controller.requests controller.newWorld ++ new /\
       Forall (fun a => a = None) oks /\
       answers refusesThree (controller.requests controller.newWorld) new
       = oks ++ [Some (RequestError 401 "3 is not OK")].
Proof.
  assert (H : controller.synchronize refusesThree ["one"; "two"] twoDirty
                controller.newWorld
              = (controller.Done (Some (RequestError 401 "3 is not OK")),
                 afterOne, worldAfterTwo)) by (vm_compute; reflexivity).
  split; [exact H|].
  exact (pass_stops_at_first_failure refusesThree ["one"; "two"] twoDirty afterOne
           controller.newWorld worldAfterTwo _ H).
Defined.

(** X11.  After a pass that went through all the dirty names without an
    error, every name that is still dirty is in ownership conflict. *)
Theorem successful_pass_leaves_conflicts
    (transport : list (kubeapi.Request appsv1.Deployment) ->
                 kubeapi.Request appsv1.Deployment -> kubeapi.Answer)
    (order : list string) (st st' : controller.controllerStatus)
    (w w' : controller.World) :
  controller.synchronize transport order st w = (controller.Done None, st', w') ->
  (forall n, n ∈ controller.todo st -> n ∈ order) ->
  forall n, n ∈ controller.todo st' -> conflict st n /\ conflict st' n.
Proof.
  intros Hsync Hcover n Hn. by eapply synchronize_leaves_conflicts.
Qed.

Lemma successful_pass_leaves_conflicts_witness :
  controller.synchronize alwaysCreated ["abc"] (observing twoOwners)
    controller.newWorld
  = (controller.Done None, observing twoOwners,
     controller.Printf (controller.notOwnedLine twoOwners) controller.newWorld)
  /\ conflict (observing twoOwners) "abc".
Proof.
  assert (H : controller.synchronize alwaysCreated ["abc"] (observing twoOwners)
                controller.newWorld
              = (controller.Done None, observing twoOwners,
                 controller.Printf (controller.notOwnedLine twoOwners)
                   controller.newWorld)) by reflexivity.
  split; [exact H|].
  refine (proj1 (successful_pass_leaves_conflicts alwaysCreated ["abc"]
                   (observing twoOwners) (observing twoOwners) controller.newWorld
                   _ H _ "abc" _)).
  - intros n. unfold observing. simpl. set_solver.
  - unfold observing. simpl. set_solver.
Defined.

(** X12.  A pass is idempotent: after a pass that went through all the
    dirty names without an error, a further pass over the names that are
    still dirty issues no call, changes no status, and only logs the
    warning of each name again. *)
Theorem second_pass_is_quiet
    (transport : list (kubeapi.Request appsv1.Deployment) ->
                 kubeapi.Request appsv1.Deployment -> kubeapi.Answer)
    (order order2 : list string) (st st' : controller.controllerStatus)
    (w w' : controller.World) :
  controller.synchronize transport order st w = (controller.Done None, st', w') ->
  (forall n, n ∈ controller.todo st -> n ∈ order) ->
  (forall n, n ∈ order2 -> n ∈ controller.todo st') ->
  exists w2,
    controller.synchronize transport order2 st' w' = (controller.Done None, st', w2) /\
    controller.requests w2 = controller.requests w' /\
    length (controller.logged w2)
    = (length (controller.logged w') + length order2)%nat.
Proof.
  intros Hsync Hcover Hsub.
  apply synchronize_all_conflicts. intros n Hn.
  exact (proj2 (synchronize_leaves_conflicts transport _ _ _ _ _ _ Hsync Hcover
                  (Hsub n Hn))).
Qed.

Lemma second_pass_is_quiet_witness :
  controller.synchronize alwaysCreated ["abc"] (observing twoOwners)
    controller.newWorld
  = (controller.Done None, observing twoOwners,
     controller.Printf (controller.notOwnedLine twoOwners) controller.newWorld)
  /\ exists w2,
       controller.synchronize alwaysCreated ["abc"] (observing twoOwners)
         (controller.Printf (controller.notOwnedLine twoOwners) controller.newWorld)
       = (controller.Done None, observing twoOwners, w2) /\
       controller.requests w2 = [] /\
       length (controller.logged w2) = 2%nat.
Proof.
  assert (H : controller.synchronize alwaysCreated ["abc"] (observing twoOwners)
                controller.newWorld
              = (controller.Done None, observing twoOwners,
                 controller.Printf (controller.notOwnedLine twoOwners)
                   controller.newWorld)) by reflexivity.
  split; [exact H|].
  refine (second_pass_is_quiet alwaysCreated ["abc"] ["abc"]
            (observing twoOwners) (observing twoOwners) controller.newWorld
            _ H _ _).
  - intros n. unfold observing. simpl. set_solver.
  - intros n. unfold observing. simpl. set_solver.
Defined.

(** X13.  What the controller creates, it recognises: an observed
    deployment that has the owner references and the replica count of
    [newDeployment foo], whatever its resource version and the rest of its
    metadata, is controlled by [foo], and the pass takes the name out of the
    dirty set without a call. *)
Theorem created_deployment_is_converged
    (transport : list (kubeapi.Request appsv1.Deployment) ->
                 kubeapi.Request appsv1.Deployment -> kubeapi.Answer)
    (item : string) (st : controller.controllerStatus) (w : controller.World)
    (foo : controller.Foo) (dep : appsv1.Deployment) :
  controller.foos st !! item = Some foo ->
  controller.deployments st !! controller.DeploymentName (controller.Spec foo)
    = Some dep ->
  metav1.ObjectMeta.OwnerReferences (appsv1.ObjectMeta dep)
  = metav1.ObjectMeta.OwnerReferences
      (appsv1.ObjectMeta (controller.newDeployment foo)) ->
  appsv1.Replicas (appsv1.Spec dep)
  = appsv1.Replicas (appsv1.Spec (controller.newDeployment foo)) ->
  metav1.IsControlledBy (appsv1.ObjectMeta dep) (controller.ObjectMeta foo) = true /\
  controller.synchronizeItem transport item st w
  = (controller.Done None,
     controller.setTodo (controller.todo st ∖ {[item]}) st, w).
Proof.
  intros Hfoo Hdep Hrefs Hrep.
  assert (Hctl : metav1.IsControlledBy (appsv1.ObjectMeta dep)
                   (controller.ObjectMeta foo) = true).
  { unfold metav1.IsControlledBy. rewrite Hrefs. simpl.
    by apply bool_decide_eq_true. }
  split; [done|]. unfold controller.synchronizeItem.
  rewrite Hfoo, Hdep, Hctl, Hrep. simpl. by rewrite Z.eqb_refl.
Qed.

Lemma created_deployment_is_converged_witness :
  controller.synchronizeItem alwaysCreated "abc"
    (observing (controller.withResourceVersion "42"
                  (controller.newDeployment exampleFoo)))
    controller.newWorld
  = (controller.Done None,
     controller.setTodo ({["abc"]} ∖ {["abc"]})
       (observing (controller.withResourceVersion "42"
                     (controller.newDeployment exampleFoo))),
     controller.newWorld).
Proof.
  exact (proj2 (created_deployment_is_converged alwaysCreated "abc"
                  (observing (controller.withResourceVersion "42"
                                (controller.newDeployment exampleFoo)))
                  controller.newWorld exampleFoo
                  (controller.withResourceVersion "42"
                     (controller.newDeployment exampleFoo))
                  eq_refl eq_refl eq_refl eq_refl)).
Defined.

(** ** The select loop, continued *)

Section loop_more.

Import kubeapi controller.

Variable transport :
  list (Request appsv1.Deployment) -> Request appsv1.Deployment -> Answer.

(** The only values that an iteration sends on the error output are the
    errors of the two streams, each under its prefix. *)
Lemma iteration_errors l i w n w' :
  iteration transport l i w = (n, w') ->
  Errors w' = Errors w \/
  exists inner,
    Errors w' = Errors w ++ [Errorf_w "Reading deployments: " inner] \/
    Errors w' = Errors w ++ [Errorf_w "Reading Foos: " inner].
Proof.
  unfold iteration, bothClosed.
  destruct i as [r|r|order].
  - destruct r as [|ev]; simpl.
    + destruct (foosCh l); simpl; intros [= <- <-]; by left.
    + destruct (Err ev) as [err|]; [intros [= <- <-]; right; eauto|].
      destruct (Item ev) as [d|]; [|intros [= <- <-]; by left].
      rewrite !addTODO_dep.
      destruct (deployments (status l) !! depName d) as [old|];
        rewrite ?addTODO_dep; simpl;
        destruct (deploymentsCh l), (foosCh l); simpl;
        intros [= <- <-]; by left.
  - destruct r as [|ev]; simpl.
    + destruct (deploymentsCh l); simpl; intros [= <- <-]; by left.
    + destruct (Err ev) as [err|]; [intros [= <- <-]; right; eauto|].
      destruct (Item ev) as [f|]; [|intros [= <- <-]; by left].
      destruct (deploymentsCh l), (foosCh l); simpl; intros [= <- <-]; by left.
  - destruct (synchronize transport order (status l) w) as [[r st'] w1] eqn:Hsync.
    apply synchronize_frame in Hsync as (_ & _ & _ & _ & _ & He & _).
    destruct r as [[err|]|];
      destruct (deploymentsCh l), (foosCh l); simpl;
      intros [= <- <-]; by left.
Qed.

Lemma fatal_next c e c' :
  Forall fatal (Errors (world c)) -> next transport c e = Some c' ->
  Forall fatal (Errors (world c')).
Proof.
  unfold next. intros Hc.
  destruct e as [crd| |i], (phase c) as [|l| |] eqn:Hp; try done.
  - intros [= <-]. destruct crd as [[err|]|]; simpl; try done.
    apply Forall_app. split; [done|]. constructor; [|done].
    exists err. by left.
  - intros [= <-]. unfold RequestStop.
    by destruct (stopFoos c), (stopDeployments c).
  - intros [= <-]. unfold RequestStop.
    by destruct (stopFoos c), (stopDeployments c).
  - intros [= <-]. unfold RequestStop.
    by destruct (stopFoos c), (stopDeployments c).
  - destruct (enabled l i); [|done].
    destruct (iteration transport l i (world c)) as [n w'] eqn:Hit.
    intros [= <-]. simpl.
    apply iteration_errors in Hit as [->|(inner & [->| ->])]; [done| |];
      (apply Forall_app; split; [done|]; constructor; [|done]);
      exists inner; auto.
Qed.

Lemma fatal_exec c es c' :
  Forall fatal (Errors (world c)) -> exec transport c es = Some c' ->
  Forall fatal (Errors (world c')).
Proof.
  revert c. induction es as [|e es IH]; intros c Hc; simpl; [by intros [= <-]|].
  destruct (next transport c e) as [c1|] eqn:Hn; [|done].
  apply IH. by eapply fatal_next.
Qed.

(** A controller that has stopped or panicked takes no event of the loop
    and no start; a stop request leaves its world alone. *)
Lemma next_terminal c e c' :
  phase c = Stopped \/ phase c = Panicked ->
  next transport c e = Some c' ->
  e = EvRequestStop /\ world c' = world c /\
  (phase c' = Stopped \/ phase c' = Panicked).
Proof.
  unfold next. intros [Hp|Hp]; rewrite Hp; destruct e as [crd| |i]; try done.
  intros [= <-]. split; [done|]. unfold RequestStop.
  destruct (stopFoos c), (stopDeployments c); simpl; rewrite ?Hp; auto.
Qed.

Lemma iteration_tick_errors l order w :
  Errors (iteration transport l (Tick order) w).2 = Errors w.
Proof.
  unfold iteration, bothClosed.
  destruct (synchronize transport order (status l) w) as [[r st'] w1] eqn:Hsync.
  apply synchronize_frame in Hsync as (_ & _ & _ & _ & _ & He & _).
  destruct r as [[err|]|]; destruct (deploymentsCh l), (foosCh l); simpl; done.
Qed.

Lemma one_error_next c e c' :
  wellStarted c -> (length (Errors (world c)) <= 1)%nat ->
  next transport c e = Some c' -> (length (Errors (world c')) <= 1)%nat.
Proof.
  intros Hw Hlen Hn.
  destruct (phase c) as [|l| |] eqn:Hp.
  - unfold wellStarted in Hw. rewrite Hp in Hw.
    unfold next in Hn. rewrite Hp in Hn.
    destruct e as [crd| |i]; try done; injection Hn as <-.
    + destruct crd as [[err|]|]; simpl; rewrite Hw; simpl; lia.
    + unfold RequestStop. by destruct (stopFoos c), (stopDeployments c).
  - unfold wellStarted in Hw. rewrite Hp in Hw. destruct Hw as (He & _).
    unfold next in Hn. rewrite Hp in Hn.
    destruct e as [crd| |i]; try done.
    + injection Hn as <-. unfold RequestStop.
      by destruct (stopFoos c), (stopDeployments c).
    + destruct (enabled l i); [|done].
      destruct (iteration transport l i (world c)) as [n w'] eqn:Hit.
      injection Hn as <-. simpl.
      apply iteration_errors in Hit as [->|(inner & [->| ->])];
        rewrite He; simpl; lia.
  - apply next_terminal in Hn as (_ & -> & _); [done|by left].
  - apply next_terminal in Hn as (_ & -> & _); [done|by right].
Qed.

Lemma one_error_exec c es c' :
  wellStarted c -> (length (Errors (world c)) <= 1)%nat ->
  exec transport c es = Some c' -> (length (Errors (world c')) <= 1)%nat.
Proof.
  revert c. induction es as [|e es IH]; intros c Hw Hlen; simpl;
    [by intros [= <-]|].
  destruct (next transport c e) as [c1|] eqn:Hn; [|done].
  apply IH; [by eapply wellStarted_next|by eapply one_error_next].
Qed.

Lemma exec_terminal c es c' :
  phase c = Stopped \/ phase c = Panicked ->
  exec transport c es = Some c' ->
  world c' = world c /\ (phase c' = Stopped \/ phase c' = Panicked) /\
  Forall (fun e => e = EvRequestStop) es.
Proof.
  revert c. induction es as [|e es IH]; intros c Hp; simpl.
  - intros [= <-]. by repeat split.
  - destruct (next transport c e) as [c1|] eqn:Hn; [|done].
    apply next_terminal in Hn as (-> & Hw & Hp1); [|done].
    intros H. destruct (IH _ Hp1 H) as (-> & ? & ?).
    repeat split; try done. by constructor.
Qed.

End loop_more.

(** X14.  A managed-resource event on a running loop asks for a tick,
    stores the resource under its name or removes that entry, and marks the
    name dirty: afterwards the desired entry of the name is the resource of
    an upsert and absent after a delete.  The observed deployments, the
    calls and the channels are untouched. *)
Theorem foo_event_updates_desired
    (transport : list (kubeapi.Request appsv1.Deployment) ->
                 kubeapi.Request appsv1.Deployment -> kubeapi.Answer)
    (c : controller.Controller) (l : controller.Loop)
    (isDelete : bool) (foo : controller.Foo) :
  controller.phase c = controller.Running l ->
  controller.foosCh l = true ->
  exists c' l',
    controller.next transport c
      (controller.EvSelect
         (controller.FromFoos (controller.Msg (kubeapi.itemEvent isDelete foo))))
    = Some c' /\
    controller.phase c' = controller.Running l' /\
    controller.foos (controller.status l') !! controller.fooName foo
    = (if isDelete then None else Some foo) /\
    (forall n, n <> controller.fooName foo ->
       controller.foos (controller.status l') !! n
       = controller.foos (controller.status l) !! n) /\
    controller.todo (controller.status l')
    = controller.todo (controller.status l) ∪ {[controller.fooName foo]} /\
    controller.deployments (controller.status l')
    = controller.deployments (controller.status l) /\
    controller.asked (controller.world c') = S (controller.asked (controller.world c)) /\
    controller.requests (controller.world c')
    = controller.requests (controller.world c) /\
    controller.deploymentsCh l' = controller.deploymentsCh l /\
    controller.foosCh l' = true.
Proof.
  intros Hp Hch. unfold controller.next. rewrite Hp. simpl. rewrite Hch.
  unfold controller.iteration, controller.bothClosed. simpl.
  rewrite ?Hch, andb_false_r.
  eexists _, _. split; [reflexivity|]. simpl. split; [reflexivity|]. simpl.
  destruct isDelete; simpl.
  - rewrite lookup_delete_eq. repeat split; try done.
    intros n Hn. by rewrite lookup_delete_ne.
  - rewrite lookup_insert_eq. repeat split; try done.
    intros n Hn. by rewrite lookup_insert_ne.
Qed.

Lemma foo_event_updates_desired_witness :
  controller.phase runningController = controller.Running controller.newLoop /\
  exists c' l',
    controller.next alwaysCreated runningController
      (controller.EvSelect
         (controller.FromFoos (controller.Msg (kubeapi.itemEvent false exampleFoo))))
    = Some c' /\
    controller.phase c' = controller.Running l' /\
    controller.foos (controller.status l') !! "abc" = Some exampleFoo.
Proof.
  split; [reflexivity|].
  destruct (foo_event_updates_desired alwaysCreated runningController
              controller.newLoop false exampleFoo eq_refl eq_refl)
    as (c' & l' & H1 & H2 & H3 & _).
  exists c', l'. split; [exact H1|]. split; [exact H2|exact H3].
Defined.

(** X15.  Whatever happens to the controller, its error output carries at
    most one error, and only a fatal one: the error of the registration or
    the error of a watch stream, under its prefix.  A failed synchronization
    is logged and retried and never reaches the error output.  The output
    is empty and open while the controller starts or runs, and closed once
    it has stopped. *)
Theorem only_fatal_errors_are_reported
    (transport : list (kubeapi.Request appsv1.Deployment) ->
                 kubeapi.Request appsv1.Deployment -> kubeapi.Answer)
    (es : list controller.Event) (c : controller.Controller) :
  controller.exec transport controller.NewController es = Some c ->
  Forall fatal (controller.Errors (controller.world c)) /\
  (length (controller.Errors (controller.world c)) <= 1)%nat /\
  (controller.phase c = controller.Starting \/
   (exists l, controller.phase c = controller.Running l) ->
   controller.Errors (controller.world c) = [] /\
   controller.ErrorsClosed (controller.world c) = false) /\
  (controller.phase c = controller.Stopped ->
   controller.ErrorsClosed (controller.world c) = true) /\
  (forall l order w,
     controller.Errors (controller.iteration transport l (controller.Tick order) w).2
     = controller.Errors w).
Proof.
  intros Hex.
  pose proof (wellStarted_exec transport _ _ _ wellStarted_new Hex) as Hw.
  pose proof (fatal_exec transport controller.NewController es c
                (List.Forall_nil _) Hex) as Hf.
  assert (Hlen : (length (controller.Errors (controller.world c)) <= 1)%nat).
  { eapply one_error_exec; [apply wellStarted_new| |exact Hex]. simpl. lia. }
  unfold wellStarted in Hw.
  split; [done|]. split; [done|]. split; [|split].
  - intros [Hp|[l Hp]]; rewrite Hp in Hw;
      [by rewrite Hw|by destruct Hw as (? & ? & _)].
  - intros Hp. rewrite Hp in Hw. by destruct Hw.
  - intros l order w. apply iteration_tick_errors.
Qed.

Lemma only_fatal_errors_are_reported_witness :
  controller.exec alwaysCreated controller.NewController
    [controller.EvStart (controller.Done None);
     controller.EvSelect
       (controller.FromFoos
          (controller.Msg (kubeapi.errEvent (errorString "decode failed"))))]
  = Some {| controller.stopFoos := controller.chanOpen;
            controller.stopDeployments := controller.chanOpen;
            controller.phase := controller.Stopped;
            controller.world :=
              controller.closeErrors
                (controller.sendError
                   (Errorf_w "Reading Foos: " (errorString "decode failed"))
                   controller.newWorld) |}
  /\ Forall fatal [Errorf_w "Reading Foos: " (errorString "decode failed")].
Proof.
  split; [reflexivity|].
  exact (proj1 (only_fatal_errors_are_reported alwaysCreated
                  [controller.EvStart (controller.Done None);
                   controller.EvSelect
                     (controller.FromFoos
                        (controller.Msg
                           (kubeapi.errEvent (errorString "decode failed"))))]
                  _ eq_refl)).
Defined.

(** X16.  Stopped is terminal, and so is a panic: from then on the select
    of the loop never fires and the controller cannot be started again; the
    only event left is a stop request, and nothing the controller has done
    to the outside changes any more. *)
Theorem stopped_is_terminal
    (transport : list (kubeapi.Request appsv1.Deployment) ->
                 kubeapi.Request appsv1.Deployment -> kubeapi.Answer)
    (c c' : controller.Controller) (es : list controller.Event) :
  controller.phase c = controller.Stopped \/
  controller.phase c = controller.Panicked ->
  controller.exec transport c es = Some c' ->
  controller.world c' = controller.world c /\
  (controller.phase c' = controller.Stopped \/
   controller.phase c' = controller.Panicked) /\
  Forall (fun e => e = controller.EvRequestStop) es.
Proof. apply exec_terminal. Qed.

Lemma stopped_is_terminal_witness :
  controller.exec alwaysCreated stoppedOn404 [controller.EvRequestStop]
  = Some stoppedOn404 /\
  controller.world stoppedOn404 = controller.world stoppedOn404.
Proof.
  split; [reflexivity|].
  exact (proj1 (stopped_is_terminal alwaysCreated stoppedOn404 stoppedOn404
                  [controller.EvRequestStop] (or_introl eq_refl) eq_refl)).
Defined.

(** X17.  [RequestStop] is for one use, after the watches were opened.
    While both stop channels are nil it does nothing at all, so a stop
    requested before [startAux] has opened the watches is lost: the
    controller then starts with both watches open.  Asked a second time
    after it has closed a channel, it panics on the close of a closed
    channel. *)
Theorem RequestStop_once (c : controller.Controller) :
  (controller.stopFoos c = controller.chanNil ->
   controller.stopDeployments c = controller.chanNil ->
   controller.RequestStop c = c) /\
  (controller.stopFoos c <> controller.chanNil \/
   controller.stopDeployments c <> controller.chanNil ->
   controller.phase (controller.RequestStop (controller.RequestStop c))
   = controller.Panicked) /\
  (forall transport,
     controller.exec transport controller.NewController
       [controller.EvRequestStop; controller.EvStart (controller.Done None)]
     = Some runningController).
Proof.
  split; [|split].
  - destruct c as [sf sd p w]. simpl. intros -> ->. reflexivity.
  - destruct c as [sf sd p w]. simpl.
    destruct sf, sd; simpl; intros [H|H]; done.
  - reflexivity.
Qed.

Lemma RequestStop_once_witness :
  controller.phase (controller.RequestStop (controller.RequestStop runningController))
  = controller.Panicked.
Proof.
  apply (proj1 (proj2 (RequestStop_once runningController))).
  left. discriminate.
Defined.

(** ** From an event to the call *)

Section scenarios.

Import kubeapi controller.

Variable transport :
  list (Request appsv1.Deployment) -> Request appsv1.Deployment -> Answer.

(** A tick on a running loop whose dirty set is the one name [n]. *)
Lemma enabled_single l n :
  todo (status l) = {[n]} -> enabled l (Tick [n]) = true.
Proof.
  intros Ht. unfold enabled. rewrite Ht.
  rewrite bool_decide_true by (apply NoDup_singleton).
  rewrite bool_decide_true; [done|]. set_solver.
Qed.

Lemma exec_app c es1 es2 :
  exec transport c (es1 ++ es2)
  = match exec transport c es1 with
    | Some c1 => exec transport c1 es2
    | None => None
    end.
Proof.
  revert c. induction es1 as [|e es1 IH]; intros c; simpl; [done|].
  destruct (next transport c e); [apply IH|done].
Qed.

(** The deletion of a deployment that was observed as it is deleted. *)
Lemma next_deployment_delete c l dep :
  phase c = Running l -> deploymentsCh l = true ->
  deployments (status l) !! depName dep = Some dep ->
  next transport c (EvSelect (FromDeployments (Msg (itemEvent true dep))))
  = Some
      {| stopFoos := stopFoos c; stopDeployments := stopDeployments c;
         phase :=
           Running
             {| status :=
                  {| foos := foos (status l);
                     deployments := delete (depName dep) (deployments (status l));
                     todo := todo (status l) ∪ marked dep ∪ marked dep |};
                deploymentsCh := true; foosCh := foosCh l |};
         world :=
           {| requests := requests (world c); logged := logged (world c);
              asked := (asked (world c) + ticksAsked dep + ticksAsked dep)%nat;
              Errors := Errors (world c);
              ErrorsClosed := ErrorsClosed (world c) |} |}.
Proof.
  intros Hp Hch Hold. unfold next. rewrite Hp. simpl. rewrite Hch.
  unfold iteration, bothClosed. simpl. rewrite Hold.
  rewrite !addTODO_dep. simpl. by rewrite ?Hch.
Qed.

End scenarios.

(** X18.  From a fresh controller, the upsert of a managed resource
    followed by a tick issues exactly one call, the create of
    [newDeployment foo].  If the server accepts it the dirty set is empty
    and the one tick asked for is that of the event; if the server refuses
    it the name stays dirty, the failure is logged and a second tick is
    asked for. *)
Theorem upsert_then_tick_creates
    (transport : list (kubeapi.Request appsv1.Deployment) ->
                 kubeapi.Request appsv1.Deployment -> kubeapi.Answer)
    (foo : controller.Foo) :
  exists c l,
    controller.exec transport controller.NewController
      [controller.EvStart (controller.Done None);
       controller.EvSelect
         (controller.FromFoos (controller.Msg (kubeapi.itemEvent false foo)));
       controller.EvSelect (controller.Tick [controller.fooName foo])] = Some c /\
    controller.phase c = controller.Running l /\
    controller.requests (controller.world c)
    = [kubeapi.AddDeployment (controller.newDeployment foo)] /\
    controller.foos (controller.status l) !! controller.fooName foo = Some foo /\
    match kubeapi.result
            (transport [] (kubeapi.AddDeployment (controller.newDeployment foo))) with
    | None =>
        controller.todo (controller.status l) = ∅ /\
        controller.asked (controller.world c) = 1%nat /\
        controller.logged (controller.world c) = []
    | Some err =>
        controller.todo (controller.status l) = {[controller.fooName foo]} /\
        controller.asked (controller.world c) = 2%nat /\
        controller.logged (controller.world c)
        = ["Synchronize failed, will retry: " +:+ Error err]
    end.
Proof.
  set (n := controller.fooName foo).
  set (st1 := {| controller.foos := <[n := foo]> ∅;
                 controller.deployments := ∅;
                 controller.todo := ∅ ∪ {[n]} |}).
  set (l1 := {| controller.status := st1; controller.deploymentsCh := true;
                controller.foosCh := true |}).
  assert (Hen : controller.enabled l1 (controller.Tick [n]) = true).
  { apply enabled_single. simpl. set_solver. }
  assert (Hitem : controller.synchronizeItem transport n st1
                    (controller.AskTick controller.newWorld)
                  = match kubeapi.result
                            (transport []
                               (kubeapi.AddDeployment (controller.newDeployment foo))) with
                    | Some err =>
                        (controller.Done (Some err), st1,
                         controller.issue
                           (kubeapi.AddDeployment (controller.newDeployment foo))
                           (controller.AskTick controller.newWorld))
                    | None =>
                        (controller.Done None,
                         controller.setTodo (controller.todo st1 ∖ {[n]}) st1,
                         controller.issue
                           (kubeapi.AddDeployment (controller.newDeployment foo))
                           (controller.AskTick controller.newWorld))
                    end).
  { unfold controller.synchronizeItem, controller.call. simpl.
    rewrite lookup_insert_eq, lookup_empty. simpl.
    by destruct (kubeapi.result _). }
  set (c2 := {| controller.stopFoos := controller.chanOpen;
                controller.stopDeployments := controller.chanOpen;
                controller.phase := controller.Running l1;
                controller.world := controller.AskTick controller.newWorld |}).
  assert (H2 : controller.exec transport controller.NewController
                 [controller.EvStart (controller.Done None);
                  controller.EvSelect
                    (controller.FromFoos
                       (controller.Msg (kubeapi.itemEvent false foo)))]
               = Some c2) by reflexivity.
  change [controller.EvStart (controller.Done None);
          controller.EvSelect
            (controller.FromFoos (controller.Msg (kubeapi.itemEvent false foo)));
          controller.EvSelect (controller.Tick [n])]
    with ([controller.EvStart (controller.Done None);
           controller.EvSelect
             (controller.FromFoos (controller.Msg (kubeapi.itemEvent false foo)))]
          ++ [controller.EvSelect (controller.Tick [n])]).
  rewrite exec_app, H2.
  cbn [controller.exec]. unfold controller.next.
  cbn [controller.phase c2]. rewrite Hen.
  unfold controller.iteration.
  cbn [controller.synchronize controller.status l1 controller.world c2].
  rewrite Hitem.
  destruct (kubeapi.result
              (transport [] (kubeapi.AddDeployment (controller.newDeployment foo))))
    as [err|]; simpl.
  - eexists _, _. split; [reflexivity|]. split; [reflexivity|]. simpl.
    rewrite lookup_insert_eq. repeat split; try done. set_solver.
  - eexists _, _. split; [reflexivity|]. split; [reflexivity|]. simpl.
    rewrite lookup_insert_eq. repeat split; try done. set_solver.
Qed.

(** X19.  The controller heals a deletion: when the observed deployment of
    a desired entry is deleted, its owner is marked dirty, and the next tick
    issues the create call of [newDeployment foo] again. *)
Theorem deleted_deployment_is_recreated
    (transport : list (kubeapi.Request appsv1.Deployment) ->
                 kubeapi.Request appsv1.Deployment -> kubeapi.Answer)
    (c : controller.Controller) (l : controller.Loop)
    (foo : controller.Foo) (dep : appsv1.Deployment) :
  controller.phase c = controller.Running l ->
  controller.deploymentsCh l = true ->
  controller.todo (controller.status l) = ∅ ->
  controller.foos (controller.status l) !! controller.fooName foo = Some foo ->
  controller.depName dep = controller.DeploymentName (controller.Spec foo) ->
  controller.deployments (controller.status l) !! controller.depName dep = Some dep ->
  marked dep = {[controller.fooName foo]} ->
  exists c' l',
    controller.exec transport c
      [controller.EvSelect
         (controller.FromDeployments (controller.Msg (kubeapi.itemEvent true dep)));
       controller.EvSelect (controller.Tick [controller.fooName foo])] = Some c' /\
    controller.phase c' = controller.Running l' /\
    controller.requests (controller.world c')
    = controller.requests (controller.world c)
      ++ [kubeapi.AddDeployment (controller.newDeployment foo)] /\
    controller.deployments (controller.status l') !! controller.depName dep = None.
Proof.
  intros Hp Hch Ht Hfoo Hname Hold Hmark.
  cbn [controller.exec].
  rewrite (next_deployment_delete transport c l dep Hp Hch Hold).
  unfold controller.next at 1. cbn [controller.phase].
  rewrite enabled_single; [|simpl; rewrite Ht, Hmark; set_solver].
  unfold controller.iteration.
  cbn [controller.synchronize controller.status controller.world].
  unfold controller.synchronizeItem, controller.call.
  cbn [controller.foos controller.deployments controller.requests].
  rewrite Hfoo, <-Hname, lookup_delete_eq.
  destruct (kubeapi.result _) as [err|]; simpl;
    (eexists _, _; split; [reflexivity|]; split; [reflexivity|]; simpl);
    by rewrite lookup_delete_eq.
Qed.

Lemma deleted_deployment_is_recreated_witness :
  exists c' l',
    controller.exec alwaysCreated
      {| controller.stopFoos := controller.chanOpen;
         controller.stopDeployments := controller.chanOpen;
         controller.phase :=
           controller.Running
             {| controller.status :=
                  controller.setTodo ∅
                    (observing (controller.newDeployment exampleFoo));
                controller.deploymentsCh := true; controller.foosCh := true |};
         controller.world := controller.newWorld |}
      [controller.EvSelect
         (controller.FromDeployments
            (controller.Msg
               (kubeapi.itemEvent true (controller.newDeployment exampleFoo))));
       controller.EvSelect (controller.Tick ["abc"])] = Some c' /\
    controller.phase c' = controller.Running l' /\
    controller.requests (controller.world c')
    = [] ++ [kubeapi.AddDeployment (controller.newDeployment exampleFoo)] /\
    controller.deployments (controller.status l') !! "bar" = None.
Proof.
  exact (deleted_deployment_is_recreated alwaysCreated
           {| controller.stopFoos := controller.chanOpen;
              controller.stopDeployments := controller.chanOpen;
              controller.phase :=
                controller.Running
                  {| controller.status :=
                       controller.setTodo ∅
                         (observing (controller.newDeployment exampleFoo));
                     controller.deploymentsCh := true; controller.foosCh := true |};
              controller.world := controller.newWorld |}
           {| controller.status :=
                controller.setTodo ∅
                  (observing (controller.newDeployment exampleFoo));
              controller.deploymentsCh := true; controller.foosCh := true |}
           exampleFoo (controller.newDeployment exampleFoo)
           eq_refl eq_refl eq_refl eq_refl eq_refl eq_refl eq_refl).
Defined.

(** ** The debouncer, continued *)

Section debounce.

Import ratelimit.

Lemma run_app g ls1 ls2 :
  run g (ls1 ++ ls2)
  = match run g ls1 with Some g' => run g' ls2 | None => None end.
Proof.
  revert g. induction ls1 as [|l ls1 IH]; intros g; simpl; [done|].
  destruct (step g l); [apply IH|done].
Qed.

(** What is waiting in a state: the timer armed, a value in [timer.C], a
    tick to be read. *)
Lemma step_counts g l g' :
  step g l = Some g' ->
  match g, g' with
  | Select a c t, Select a' c' t' =>
      (times SendTick [l] + pending t' <= times RecvTimer [l] + pending t)%nat /\
      (times RecvTimer [l] + pending c' <= times TimerFires [l] + pending c)%nat /\
      (times TimerFires [l] + pending a' <= times RecvAsk [l] + pending a)%nat
  | Select a c t, Returned => l = RecvStop
  | Returned, _ => False
  end.
Proof.
  destruct g as [a c t|]; [|done].
  destruct l, a, c, t; simpl; intros H; simplify_eq; simpl; try done; lia.
Qed.

Lemma times_cons l l' ls :
  times l (l' :: ls) = (times l [l'] + times l ls)%nat.
Proof. simpl. lia. Qed.

Lemma run_counts a c t ls g' :
  run (Select a c t) ls = Some g' ->
  (times SendTick ls + match g' with Select _ _ t' => pending t' | _ => 0 end
   <= times RecvTimer ls + pending t)%nat /\
  (times RecvTimer ls + match g' with Select _ c' _ => pending c' | _ => 0 end
   <= times TimerFires ls + pending c)%nat /\
  (times TimerFires ls + match g' with Select a' _ _ => pending a' | _ => 0 end
   <= times RecvAsk ls + pending a)%nat.
Proof.
  revert a c t. induction ls as [|l ls IH]; intros a c t.
  - intros [= <-]. simpl. lia.
  - cbn [run]. destruct (step (Select a c t) l) as [g1|] eqn:Hstep; [|done].
    intros Hrun. apply step_counts in Hstep.
    rewrite !(times_cons _ l ls).
    destruct g1 as [a1 c1 t1|].
    + specialize (IH _ _ _ Hrun). lia.
    + subst l. apply run_Returned in Hrun as [-> ->]. simpl. lia.
Qed.

(** With no tick waiting, no tick is sent after a request before the timer
    has fired again. *)
Lemma quiet_until_fired a ls g :
  run (Select a false false) ls = Some g ->
  SendTick ∈ ls -> TimerFires ∈ ls.
Proof.
  revert a. induction ls as [|l ls IH]; intros a; simpl.
  - by intros _ ?%elem_of_nil.
  - destruct l, a; simpl; try done.
    + intros [-> _]%run_Returned ?%elem_of_cons. set_solver.
    + intros [-> _]%run_Returned ?%elem_of_cons. set_solver.
    + intros H [?|Hin]%elem_of_cons; [done|]. right. by eapply IH.
    + intros H [?|Hin]%elem_of_cons; [done|]. right. by eapply IH.
    + intros _ _. by left.
Qed.

Lemma stop_is_last a c t ls g :
  run (Select a c t) ls = Some g -> RecvStop ∈ ls ->
  g = Returned /\ exists pre, ls = pre ++ [RecvStop] /\ RecvStop ∉ pre.
Proof.
  revert a c t. induction ls as [|l ls IH]; intros a c t.
  - by intros _ ?%elem_of_nil.
  - assert (Hgo : forall a' c' t', l <> RecvStop ->
              run (Select a' c' t') ls = Some g -> RecvStop ∈ l :: ls ->
              g = Returned /\ exists pre, l :: ls = pre ++ [RecvStop] /\ RecvStop ∉ pre).
    { intros a' c' t' Hl H [?|Hin]%elem_of_cons; [done|].
      destruct (IH _ _ _ H Hin) as (-> & pre & -> & Hpre).
      split; [done|]. exists (l :: pre). split; [done|].
      intros [?|?]%elem_of_cons; [done|by apply Hpre]. }
    destruct l, a, c, t; simpl; try done; try (by apply Hgo);
      intros [-> ->]%run_Returned _; (split; [done|]);
      exists []; (split; [done|]); by intros ?%elem_of_nil.
Qed.

Lemma run_replicate_ask a c t n :
  run (Select a c t) (replicate (S n) RecvAsk) = Some (Select true false t).
Proof.
  revert a c. induction n as [|n IH]; intros a c.
  - by destruct a, c, t.
  - change (replicate (S (S n)) RecvAsk) with (RecvAsk :: replicate (S n) RecvAsk).
    cbn [run]. replace (step (Select a c t) RecvAsk) with (Some (Select true false t))
      by (by destruct a, c, t).
    apply IH.
Qed.

Lemma run0_Sending a c ls g :
  ratelimit0.run (ratelimit0.Sending a c) ls = Some g ->
  RecvAsk ∈ ls \/ RecvStop ∈ ls -> SendTick ∈ ls.
Proof.
  revert a c. induction ls as [|l ls IH]; intros a c.
  - intros _ [?%elem_of_nil|?%elem_of_nil]; done.
  - destruct l, a; simpl; try done; try (intros _ _; by left).
    intros H Hin. right. apply (IH _ _ H).
    destruct Hin as [[?|?]%elem_of_cons|[?|?]%elem_of_cons]; auto; done.
Qed.

End debounce.

(** X20.  The debouncer never ticks more often than it was asked: in every
    run, the ticks read are at most as many as the timer values the
    goroutine took, those at most as many as the expiries of the timer, and
    those at most as many as the requests. *)
Theorem debouncer_ticks_at_most_requests (ls : list ratelimit.label)
    (g : ratelimit.goroutine) :
  ratelimit.run ratelimit.AfterOneSecondIdle ls = Some g ->
  (times ratelimit.SendTick ls <= times ratelimit.RecvTimer ls)%nat /\
  (times ratelimit.RecvTimer ls <= times ratelimit.TimerFires ls)%nat /\
  (times ratelimit.TimerFires ls <= times ratelimit.RecvAsk ls)%nat.
Proof.
  intros H. apply run_counts in H.
  destruct g as [a c t|]; simpl in H; lia.
Qed.

Lemma debouncer_ticks_at_most_requests_witness :
  (times ratelimit.SendTick
     [ratelimit.RecvAsk; ratelimit.RecvAsk; ratelimit.TimerFires;
      ratelimit.RecvTimer; ratelimit.SendTick]
   <= times ratelimit.RecvAsk
        [ratelimit.RecvAsk; ratelimit.RecvAsk; ratelimit.TimerFires;
         ratelimit.RecvTimer; ratelimit.SendTick])%nat.
Proof.
  destruct (debouncer_ticks_at_most_requests
              [ratelimit.RecvAsk; ratelimit.RecvAsk; ratelimit.TimerFires;
               ratelimit.RecvTimer; ratelimit.SendTick]
              (ratelimit.Select false false false) eq_refl) as (H1 & H2 & H3).
  exact (Nat.le_trans _ _ _ H1 (Nat.le_trans _ _ _ H2 H3)).
Defined.

(** X21.  A burst is one tick: any number of requests, at least one, with
    no expiry of the timer between them, then the expiry, give exactly one
    tick, after which the debouncer is idle again: with no timer armed and
    nothing waiting, only a new request or a stop can happen. *)
Theorem burst_gives_one_tick (n : nat) :
  ratelimit.run ratelimit.AfterOneSecondIdle
    (replicate (S n) ratelimit.RecvAsk
     ++ [ratelimit.TimerFires; ratelimit.RecvTimer; ratelimit.SendTick])
  = Some ratelimit.AfterOneSecondIdle /\
  (forall l, l <> ratelimit.RecvAsk -> l <> ratelimit.RecvStop ->
             ratelimit.step ratelimit.AfterOneSecondIdle l = None) /\
  times ratelimit.SendTick
    (replicate (S n) ratelimit.RecvAsk
     ++ [ratelimit.TimerFires; ratelimit.RecvTimer; ratelimit.SendTick]) = 1%nat.
Proof.
  split; [|split].
  - rewrite run_app. unfold ratelimit.AfterOneSecondIdle.
    by rewrite run_replicate_ask.
  - by intros [].
  - induction n as [|n IH]; [done|].
    change (replicate (S (S n)) ratelimit.RecvAsk)
      with (ratelimit.RecvAsk :: replicate (S n) ratelimit.RecvAsk).
    simpl in *. exact IH.
Qed.

Lemma burst_gives_one_tick_witness :
  ratelimit.step ratelimit.AfterOneSecondIdle ratelimit.SendTick = None.
Proof.
  apply (proj1 (proj2 (burst_gives_one_tick 2))); discriminate.
Defined.

(** X22.  A tick needs a quiet period: when no tick waits to be read, no
    tick is sent after a request until the timer, which the request has
    armed anew, has fired. *)
Theorem no_tick_before_timer_fires (a c : bool) (ls : list ratelimit.label)
    (g : ratelimit.goroutine) :
  ratelimit.run (ratelimit.Select a c false) (ratelimit.RecvAsk :: ls) = Some g ->
  ratelimit.SendTick ∈ ls -> ratelimit.TimerFires ∈ ls.
Proof.
  destruct a, c; simpl; apply quiet_until_fired.
Qed.

Lemma no_tick_before_timer_fires_witness :
  ratelimit.TimerFires ∈
    [ratelimit.TimerFires; ratelimit.RecvTimer; ratelimit.SendTick].
Proof.
  apply (no_tick_before_timer_fires false false
           [ratelimit.TimerFires; ratelimit.RecvTimer; ratelimit.SendTick]
           (ratelimit.Select false false false) eq_refl).
  right. right. left.
Defined.

(** X23.  [Stop()] ends the debouncer: in every run the receipt of the
    stop is the last transition, and the goroutine has returned; no tick,
    no request and no second stop follows it. *)
Theorem Stop_is_the_last_transition (ls : list ratelimit.label)
    (g : ratelimit.goroutine) :
  ratelimit.run ratelimit.AfterOneSecondIdle ls = Some g ->
  ratelimit.RecvStop ∈ ls ->
  g = ratelimit.Returned /\
  exists pre, ls = pre ++ [ratelimit.RecvStop] /\ ratelimit.RecvStop ∉ pre.
Proof. apply stop_is_last. Qed.

Lemma Stop_is_the_last_transition_witness :
  exists pre,
    [ratelimit.RecvAsk; ratelimit.RecvStop] = pre ++ [ratelimit.RecvStop] /\
    ratelimit.RecvStop ∉ pre.
Proof.
  refine (proj2 (Stop_is_the_last_transition
                   [ratelimit.RecvAsk; ratelimit.RecvStop] ratelimit.Returned
                   eq_refl _)).
  right. left.
Defined.

(** X24.  In the earlier revision of the debouncer an unread tick blocks
    everything: once the goroutine has taken the value of the timer it sits
    in the send of the tick, and no request and no stop is received before
    the tick has been read.  In the current revision the send is a case of
    the select, and a running goroutine takes a request or a stop in every
    state. *)
Theorem unread_tick_blocks_earlier_debouncer (ls : list ratelimit.label)
    (g : ratelimit0.goroutine) :
  ratelimit0.run ratelimit0.AfterOneSecondIdle
    ([ratelimit.RecvAsk; ratelimit.TimerFires; ratelimit.RecvTimer] ++ ls) = Some g ->
  ratelimit.RecvAsk ∈ ls \/ ratelimit.RecvStop ∈ ls ->
  ratelimit.SendTick ∈ ls /\
  forall a c t,
    is_Some (ratelimit.step (ratelimit.Select a c t) ratelimit.RecvAsk) /\
    is_Some (ratelimit.step (ratelimit.Select a c t) ratelimit.RecvStop).
Proof.
  simpl. intros Hrun Hin. split.
  - by apply (run0_Sending _ _ _ _ Hrun).
  - intros a c t. destruct a, c, t; simpl; split; by eexists.
Qed.

Lemma unread_tick_blocks_earlier_debouncer_witness :
  ratelimit.SendTick ∈ [ratelimit.SendTick; ratelimit.RecvAsk].
Proof.
  refine (proj1 (unread_tick_blocks_earlier_debouncer
                   [ratelimit.SendTick; ratelimit.RecvAsk]
                   (ratelimit0.Select true false) eq_refl _)).
  left. right. left.
Defined.

(** ** What the controller writes, and how it keeps its maps *)

Section writes.

Import kubeapi controller.

Variable transport :
  list (Request appsv1.Deployment) -> Request appsv1.Deployment -> Answer.

Lemma justified_ownCall st order req : justified st order req -> ownCall req.
Proof.
  intros (item & foo & _ & _ & [[_ ->]|(dep & k & _ & _ & _ & _ & ->)]);
    exists foo; [by left|right; by eexists].
Qed.

Lemma iteration_writes l i w n w' :
  iteration transport l i w = (n, w') ->
  exists new, requests w' = requests w ++ new /\ Forall ownCall new.
Proof.
  destruct i as [r|r|order].
  - intros H. apply iteration_facts in H as [Hreq _].
    exists []. rewrite app_nil_r. split; [by apply Hreq|done].
  - intros H. apply iteration_facts in H as [Hreq _].
    exists []. rewrite app_nil_r. split; [by apply Hreq|done].
  - unfold iteration, bothClosed.
    destruct (synchronize transport order (status l) w) as [[r st'] w1] eqn:Hsync.
    apply synchronize_calls in Hsync as (new & oks & Hn & Hj & _).
    assert (Hown : Forall ownCall new).
    { eapply Forall_impl; [exact Hj|]. intros req. apply justified_ownCall. }
    destruct r as [[err|]|];
      destruct (deploymentsCh l), (foosCh l); simpl;
      intros [= <- <-]; exists new; by split.
Qed.

Lemma ownCall_next c e c' :
  Forall ownCall (requests (world c)) -> next transport c e = Some c' ->
  Forall ownCall (requests (world c')).
Proof.
  unfold next. intros Hc.
  destruct e as [crd| |i], (phase c) as [|l| |] eqn:Hp; try done.
  - intros [= <-]. by destruct crd as [[err|]|].
  - intros [= <-]. unfold RequestStop.
    by destruct (stopFoos c), (stopDeployments c).
  - intros [= <-]. unfold RequestStop.
    by destruct (stopFoos c), (stopDeployments c).
  - intros [= <-]. unfold RequestStop.
    by destruct (stopFoos c), (stopDeployments c).
  - destruct (enabled l i); [|done].
    destruct (iteration transport l i (world c)) as [n w'] eqn:Hit.
    intros [= <-]. simpl.
    apply iteration_writes in Hit as (new & -> & Hnew).
    by apply Forall_app.
Qed.

Lemma iteration_keyed l i w l' w' :
  keyed (status l) -> iteration transport l i w = (Continue l', w') ->
  keyed (status l').
Proof.
  intros [Hkf Hkd]. unfold iteration, bothClosed.
  destruct i as [r|r|order].
  - destruct r as [|ev]; simpl.
    + destruct (foosCh l); simpl; intros [= <- <-]; by split.
    + destruct (Err ev) as [err|]; [done|].
      destruct (Item ev) as [d|]; [|done].
      rewrite !addTODO_dep.
      assert (Hnew : forall n dep,
                (if IsDelete ev
                 then delete (depName d) (deployments (status l))
                 else <[depName d := d]> (deployments (status l))) !! n = Some dep ->
                depName dep = n).
      { intros n dep. destruct (IsDelete ev).
        - intros [_ ?]%lookup_delete_Some. by apply Hkd.
        - intros [[<- <-]|[_ ?]]%lookup_insert_Some; [done|by apply Hkd]. }
      destruct (deployments (status l) !! depName d) as [old|];
        rewrite ?addTODO_dep; simpl;
        destruct (deploymentsCh l), (foosCh l); simpl; try done;
        intros [= <- <-]; split; simpl; try done;
        destruct (IsDelete ev); simpl in *; done.
  - destruct r as [|ev]; simpl.
    + destruct (deploymentsCh l); simpl; intros [= <- <-]; by split.
    + destruct (Err ev) as [err|]; [done|].
      destruct (Item ev) as [f|]; [|done].
      assert (Hnew : forall n foo,
                (if IsDelete ev
                 then delete (fooName f) (foos (status l))
                 else <[fooName f := f]> (foos (status l))) !! n = Some foo ->
                fooName foo = n).
      { intros n foo. destruct (IsDelete ev).
        - intros [_ ?]%lookup_delete_Some. by apply Hkf.
        - intros [[<- <-]|[_ ?]]%lookup_insert_Some; [done|by apply Hkf]. }
      destruct (deploymentsCh l), (foosCh l); simpl; try done;
        intros [= <- <-]; split; simpl; try done;
        destruct (IsDelete ev); simpl in *; done.
  - destruct (synchronize transport order (status l) w) as [[r st'] w1] eqn:Hsync.
    apply synchronize_frame in Hsync as (Hf & Hd & _).
    destruct r as [[err|]|]; [| |done];
      destruct (deploymentsCh l), (foosCh l); simpl; try done;
      intros [= <- <-]; unfold keyed; simpl; by rewrite Hf, Hd.
Qed.

Lemma keyed_next c e c' l' :
  match phase c with Running l => keyed (status l) | _ => True end ->
  next transport c e = Some c' -> phase c' = Running l' -> keyed (status l').
Proof.
  unfold next. intros Hc.
  destruct e as [crd| |i], (phase c) as [|l| |] eqn:Hp; try done.
  - intros [= <-]. destruct crd as [[err|]|]; simpl; try done.
    intros [= <-]. split; simpl; intros n x; by rewrite lookup_empty.
  - intros [= <-]. unfold RequestStop.
    destruct (stopFoos c), (stopDeployments c); simpl; by rewrite ?Hp.
  - intros [= <-]. unfold RequestStop.
    destruct (stopFoos c), (stopDeployments c); simpl; rewrite ?Hp; try done;
      by intros [= <-].
  - intros [= <-]. unfold RequestStop.
    destruct (stopFoos c), (stopDeployments c); simpl; by rewrite ?Hp.
  - destruct (enabled l i); [|done].
    destruct (iteration transport l i (world c)) as [n w'] eqn:Hit.
    intros [= <-]. simpl. destruct n as [l1| |]; try done.
    intros [= <-]. by eapply iteration_keyed.
Qed.

Lemma keyed_exec c es c' l' :
  match phase c with Running l => keyed (status l) | _ => True end ->
  exec transport c es = Some c' -> phase c' = Running l' -> keyed (status l').
Proof.
  revert c. induction es as [|e es IH]; intros c Hc; simpl.
  - intros [= <-] Hp. by rewrite Hp in Hc.
  - destruct (next transport c e) as [c1|] eqn:Hn; [|done].
    apply IH. destruct (phase c1) as [|l1| |] eqn:Hp1; try done.
    by eapply keyed_next.
Qed.

Lemma ownCall_exec c es c' :
  Forall ownCall (requests (world c)) -> exec transport c es = Some c' ->
  Forall ownCall (requests (world c')).
Proof.
  revert c. induction es as [|e es IH]; intros c Hc; simpl; [by intros [= <-]|].
  destruct (next transport c e) as [c1|] eqn:Hn; [|done].
  apply IH. by eapply ownCall_next.
Qed.

End writes.

(** X25.  Whatever events arrive, every call that the controller ever
    issues is the create or the update of a deployment of its own making:
    the body is [newDeployment foo] for some managed resource, with that
    resource as its controlling owner, and for an update the resource
    version it carries is the only other thing set.  The controller never
    writes a deployment as it observed it, and never deletes. *)
Theorem controller_writes_only_its_own
    (transport : list (kubeapi.Request appsv1.Deployment) ->
                 kubeapi.Request appsv1.Deployment -> kubeapi.Answer)
    (es : list controller.Event) (c : controller.Controller) :
  controller.exec transport controller.NewController es = Some c ->
  Forall ownCall (controller.requests (controller.world c)) /\
  forall req, ownCall req ->
    (kubeapi.Method req = "POST" \/ kubeapi.Method req = "PUT") /\
    exists foo,
      metav1.IsControlledBy (appsv1.ObjectMeta (kubeapi.Body req))
        (controller.ObjectMeta foo) = true /\
      appsv1.Replicas (appsv1.Spec (kubeapi.Body req))
      = Some (controller.Replicas (controller.Spec foo)) /\
      controller.depName (kubeapi.Body req)
      = controller.DeploymentName (controller.Spec foo).
Proof.
  intros Hex. split.
  - by apply (ownCall_exec transport controller.NewController es c).
  - intros req (foo & [->|(rv & ->)]); (split; [auto|]); exists foo; simpl;
      (split; [unfold metav1.IsControlledBy; simpl; by apply bool_decide_eq_true|]);
      by split.
Qed.

Lemma controller_writes_only_its_own_witness :
  exists c,
    controller.exec alwaysCreated controller.NewController
      [controller.EvStart (controller.Done None);
       controller.EvSelect
         (controller.FromFoos (controller.Msg (kubeapi.itemEvent false exampleFoo)));
       controller.EvSelect (controller.Tick ["abc"])] = Some c /\
    Forall ownCall (controller.requests (controller.world c)).
Proof.
  destruct (controller.exec alwaysCreated controller.NewController
              [controller.EvStart (controller.Done None);
               controller.EvSelect
                 (controller.FromFoos
                    (controller.Msg (kubeapi.itemEvent false exampleFoo)));
               controller.EvSelect (controller.Tick ["abc"])]) as [c|] eqn:H;
    [|vm_compute in H; discriminate].
  exists c. split; [reflexivity|].
  exact (proj1 (controller_writes_only_its_own alwaysCreated _ c H)).
Defined.

(** X26.  The loop keeps its maps keyed by name: in every state the
    running controller reaches, a desired entry is stored under the name of
    the managed resource it holds, and an observed entry under the name of
    its deployment. *)
Theorem maps_are_keyed_by_name
    (transport : list (kubeapi.Request appsv1.Deployment) ->
                 kubeapi.Request appsv1.Deployment -> kubeapi.Answer)
    (es : list controller.Event) (c : controller.Controller)
    (l : controller.Loop) :
  controller.exec transport controller.NewController es = Some c ->
  controller.phase c = controller.Running l ->
  (forall n foo, controller.foos (controller.status l) !! n = Some foo ->
                 controller.fooName foo = n) /\
  (forall n dep, controller.deployments (controller.status l) !! n = Some dep ->
                 controller.depName dep = n).
Proof.
  intros Hex Hp.
  by apply (keyed_exec transport controller.NewController es c l).
Qed.

Lemma maps_are_keyed_by_name_witness :
  controller.fooName exampleFoo = "abc".
Proof.
  pose (l := {| controller.status :=
                  {| controller.foos :=
                       <["abc" := exampleFoo]> (∅ : gmap string controller.Foo);
                     controller.deployments := ∅;
                     controller.todo := ∅ ∪ {["abc"]} |};
                controller.deploymentsCh := true; controller.foosCh := true |}).
  refine (proj1 (maps_are_keyed_by_name alwaysCreated
                   [controller.EvStart (controller.Done None);
                    controller.EvSelect
                      (controller.FromFoos
                         (controller.Msg (kubeapi.itemEvent false exampleFoo)))]
                   {| controller.stopFoos := controller.chanOpen;
                      controller.stopDeployments := controller.chanOpen;
                      controller.phase := controller.Running l;
                      controller.world := controller.AskTick controller.newWorld |}
                   l _ eq_refl) "abc" exampleFoo _);
    reflexivity.
Defined.
